(** * Wallhaven downloader: the paginated batch downloader

    A shallow embedding of [saveImageToFile], [downloadPage] and the page
    loop of [main].  The script is callback-driven: Node invokes the
    handlers the code registers (request 'error' and 'timeout', the response
    callback, 'data', the writer's 'finish' and 'error', the [setTimeout]
    callback).  Here each handler is a function on an explicit world state
    (filesystem, the closure state of every started download, the trace of
    observable effects) and the environment is a list of callbacks in the
    order in which the event loop delivers them.

    Conventions of the model
    - an integral Number held by the script ([pageId], [offsetIndex], the
      counters, the byte counts) is the [Z] it denotes; arithmetic on page
      numbers and indices ([curImage], the bounds and the increment of the
      page loop of [main]) and the progress percentage are computed in IEEE
      754 binary64 ([spec_float]), so they round above 2^53 as in the code;
      array indices, which stay below 2^32, are added exactly;
    - a string is the sequence of the UTF-8 bytes of the JS string;
    - the filesystem is the set of paths that exist; [fs.createWriteStream]
      with flag "w" makes the path exist, [fs.unlink] removes it, and both
      take effect where the code calls them; [fs.mkdirSync] needs the parent
      directory;
    - [https.get] is taken to accept the URL it is given (it throws on a
      string that is not a well-formed https URL; the statements that
      depend on it say so through [https_url]);
    - [JSON.parse] is a parameter of the development. *)

From Stdlib Require Import ZArith String Ascii List Lia SpecFloat.
From stdpp Require Import base numbers list strings gmap pretty.

Local Open Scope Z_scope.

(** ** JS numbers *)

Module JSNum.

Definition prec : Z := 53.
Definition emax : Z := 1024.

Definition NaN : spec_float := S754_nan.

(** The Number value of a mathematical integer. *)
Definition of_Z (z : Z) : spec_float := binary_normalize prec emax z 0 false.

Definition div (x y : spec_float) : spec_float := SFdiv prec emax x y.
Definition mul (x y : spec_float) : spec_float := SFmul prec emax x y.
Definition add (x y : spec_float) : spec_float := SFadd prec emax x y.
Definition sub (x y : spec_float) : spec_float := SFsub prec emax x y.

(** [x < y] *)
Definition lt (x y : spec_float) : bool := SFltb x y.

(** The integer an integral finite Number denotes (0 on NaN and the
    infinities, which no statement below reaches). *)
Definition to_Z (x : spec_float) : Z :=
  match x with
  | S754_finite s m e =>
      let v := if s then Z.neg m else Z.pos m in
      if (0 <=? e)%Z then v * 2 ^ e else v / 2 ^ (- e)
  | _ => 0
  end.

(** The integers on which binary64 arithmetic is exact. *)
Definition safe (z : Z) : Prop := - 2 ^ 53 < z < 2 ^ 53.

(** Mantissa and exponent of the Number of a non-zero safe integer. *)
Definition mant (z : Z) : positive := Z.to_pos (Z.abs z * 2 ^ (52 - Z.log2 (Z.abs z))).
Definition expo (z : Z) : Z := Z.log2 (Z.abs z) - 52.

(** A Number with an integral value. *)
Definition is_integer (x : spec_float) : bool :=
  match x with
  | S754_zero _ => true
  | S754_finite _ m e => (0 <=? e) || (Z.pos m mod 2 ^ (- e) =? 0)
  | _ => false
  end.

(** [Math.round]: the closest integral Number, ties towards +infinity;
    NaN, the infinities and the zeros are returned unchanged, and a
    negative argument that rounds to zero gives -0. *)
Definition Math_round (x : spec_float) : spec_float :=
  match x with
  | S754_finite s m e =>
      if (0 <=? e)%Z then x
      else
        let v := if s then Z.neg m else Z.pos m in
        let n := (2 * v + 2 ^ (- e)) / (2 * 2 ^ (- e)) in
        if (n =? 0)%Z then S754_zero s else of_Z n
  | _ => x
  end.

(** [Math.min] of two Numbers: NaN if either is NaN, and -0 below +0. *)
Definition Math_min (x y : spec_float) : spec_float :=
  match SFcompare x y with
  | Some Lt => x
  | Some Gt => y
  | Some Eq => match x with S754_zero true => x | _ => y end
  | None => NaN
  end.

(** White space and line terminators, as [trim] and [parseInt] strip
    them: the ASCII ones, and in UTF-8 U+00A0 (C2 A0), U+1680 (E1 9A 80),
    U+2000 to U+200A, U+2028, U+2029, U+202F (E2 80 ..), U+205F (E2 81 9F),
    U+3000 (E3 80 80) and U+FEFF (EF BB BF). *)
Definition is_ws (c : ascii) : bool :=
  let n := nat_of_ascii c in
  ((n =? 32) || (n =? 9) || (n =? 10) || (n =? 11) || (n =? 12) || (n =? 13))%nat.

Definition is_ws2 (c1 c2 : ascii) : bool :=
  ((nat_of_ascii c1 =? 194) && (nat_of_ascii c2 =? 160))%nat.

Definition is_ws3 (c1 c2 c3 : ascii) : bool :=
  let '(n1, n2, n3) := (nat_of_ascii c1, nat_of_ascii c2, nat_of_ascii c3) in
  ((n1 =? 225) && (n2 =? 154) && (n3 =? 128)
   || (n1 =? 226) && (n2 =? 128)
      && ((128 <=? n3) && (n3 <=? 138) || (n3 =? 168) || (n3 =? 169) || (n3 =? 175))
   || (n1 =? 226) && (n2 =? 129) && (n3 =? 159)
   || (n1 =? 227) && (n2 =? 128) && (n3 =? 128)
   || (n1 =? 239) && (n2 =? 187) && (n3 =? 191))%nat.

(** The string without its leading white space. *)
Fixpoint skip_ws (s : string) : string :=
  match s with
  | EmptyString => s
  | String c1 s1 =>
      if is_ws c1 then skip_ws s1
      else
        match s1 with
        | EmptyString => s
        | String c2 s2 =>
            if is_ws2 c1 c2 then skip_ws s2
            else
              match s2 with
              | EmptyString => s
              | String c3 s3 => if is_ws3 c1 c2 c3 then skip_ws s3 else s
              end
        end
  end.

Definition digit_of (c : ascii) : option Z :=
  let n := nat_of_ascii c in
  if ((48 <=? n) && (n <=? 57))%nat then Some (Z.of_nat (n - 48)) else None.

(** The longest prefix of decimal digits, as an integer; [None] when the
    prefix is empty. *)
Fixpoint digits (s : string) (acc : option Z) : option Z :=
  match s with
  | String c s' =>
      match digit_of c with
      | Some d => digits s' (Some (10 * default 0 acc + d))
      | None => acc
      end
  | EmptyString => acc
  end.

(** [parseInt(s, 10)] on a string. *)
Definition parseInt_string (s : string) : spec_float :=
  let s := skip_ws s in
  let '(neg, s) :=
    match s with
    | String "-" s' => (true, s')
    | String "+" s' => (false, s')
    | _ => (false, s)
    end in
  match digits s None with
  | None => NaN
  | Some n => if neg then (if (n =? 0)%Z then S754_zero true else of_Z (- n))
              else of_Z n
  end.

(** [parseInt(h, 10)] on a header value; an absent header is [undefined],
    whose string form has no digits. *)
Definition parseInt (h : option string) : spec_float :=
  match h with
  | Some s => parseInt_string s
  | None => NaN
  end.

End JSNum.

(** ** Strings *)

(** [s.split(sep)] for a one-character separator. *)
Fixpoint split (sep : ascii) (s : string) : list string :=
  match s with
  | EmptyString => [EmptyString]
  | String c s' =>
      if Ascii.eqb c sep then EmptyString :: split sep s'
      else match split sep s' with
           | h :: t => String c h :: t
           | [] => [String c EmptyString]
           end
  end.

(** [s.split("/").pop()] *)
Definition split_pop (s : string) : string := List.last (split "/" s) EmptyString.

(** ** JSON values *)

Local Unset Elimination Schemes.
Inductive json :=
| JNull
| JBool (b : bool)
| JNum (n : Z)
| JStr (s : string)
| JArr (l : list json)
| JObj (fields : list (string * json)).
Local Set Elimination Schemes.

(** Property read [o.k] on an object literal: the last binding of a
    duplicated key wins, as in [JSON.parse]. *)
Fixpoint get_field (k : string) (fields : list (string * json)) : option json :=
  match fields with
  | [] => None
  | (k', v) :: rest =>
      match get_field k rest with
      | Some v' => Some v'
      | None => if String.eqb k k' then Some v else None
      end
  end.

(** ** Download tasks *)

(** The arguments of one [saveImageToFile] call. *)
Record task := Task {
  image_url : string;
  file_path : string;
  current_image : Z;
  total_images : Z
}.

Definition CONCURRENCY_LIMIT : nat := 8.

(** [arr.slice(i, j)] for [0 <= i <= j]. *)
Definition slice {A} (i j : nat) (l : list A) : list A := take (j - i) (drop i l).

(** [data.path] followed by [imagePath.split]: defined when the item is an
    object whose [path] is a string; every other shape throws a TypeError. *)
Definition item_path (data : json) : option string :=
  match data with
  | JObj fields => match get_field "path" fields with
                   | Some (JStr s) => Some s
                   | _ => None
                   end
  | _ => None
  end.

(** [curImage] of the item at [index] of the batch that starts at [i]:
    [(pageId - 1) * 24 + (i + index + 1) - offsetIndex] in binary64. *)
Definition curImage (pageId offsetIndex : Z) (i index : nat) : Z :=
  JSNum.to_Z
    (JSNum.sub
       (JSNum.add
          (JSNum.mul (JSNum.sub (JSNum.of_Z pageId) (JSNum.of_Z 1)) (JSNum.of_Z 24))
          (JSNum.of_Z (Z.of_nat i + Z.of_nat index + 1)))
       (JSNum.of_Z offsetIndex)).

(** The body of the [batch.map] callback, up to the [saveImageToFile] call. *)
Definition mk_task (pageId totalCount : Z) (folderName : string) (offsetIndex : Z)
    (i index : nat) (data : json) : option task :=
  let curImage := curImage pageId offsetIndex i index in
  match item_path data with
  | Some imagePath =>
      let filename := split_pop imagePath in
      let localFilePath := folderName +:+ "/" +:+ filename in
      Some (Task imagePath localFilePath curImage totalCount)
  | None => None
  end.

(** The values [i] takes in [for (let i = 0; i < len; i += batchSize)].
    [fuel] bounds the number of iterations; [len] iterations are enough
    whenever [batchSize] is positive.  With [batchSize = 0] the loop never
    advances: [download_batches] treats that case apart. *)
Fixpoint batch_starts (fuel batchSize len i : nat) : list nat :=
  match fuel with
  | O => []
  | S fuel' =>
      if (i <? len)%nat then i :: batch_starts fuel' batchSize len (i + batchSize)
      else []
  end.

(** The batches of a page, each with its start offset [i]. *)
Definition batches {A} (batchSize : nat) (pageData : list A) : list (nat * list A) :=
  map (λ i, (i, slice i (i + batchSize) pageData))
      (batch_starts (length pageData) batchSize (length pageData) 0).

(** ** Observable effects *)

(** What the script does to the outside world, in the order it does it.
    [Started] and [Settled] mark the call of [saveImageToFile] for the
    [id]-th task of the run and the fulfilment of the promise it returned. *)
Inductive obs :=
| Started (id : nat)
| HttpsGet (id : nat) (url : string)
| CreateWriteStream (id : nat) (path : string)
| SetTimeout (id : nat)
| ClearTimeout (id : nat)
| ResDestroy (id : nat)
| RequestDestroy (id : nat)
| WriterEnd (id : nat)
| Unlink (id : nat) (path : string)
| StdoutWrite (filename : string) (percent : spec_float) (cur total : Z) (newline : bool)
| ConsoleError (path : string) (message : string)
| ConsoleLogFailed (filename : string) (cur total : Z)
| ConsoleLogExists (filename : string) (cur total : Z)
| ConsoleLogUrl (params : list (string * string))
| ApiGet (params : list (string * string))
| Mkdir (path : string)
| Settled (id : nat).

(** ** One download: [saveImageToFile] *)

(** The callbacks Node can deliver to the handlers of one download. *)
Inductive dl_event :=
| ReqError (message : string)       (* request.on("error") *)
| ReqTimeout                        (* request.on("timeout") *)
| Response (statusCode : Z) (content_length : option string)
| Data (chunk_length : Z)           (* res.on("data") *)
| WriterFinish                      (* writer.on("finish") *)
| WriterError (message : string)    (* writer.on("error") *)
| TimerFire.                        (* the setTimeout callback *)

(** The closure of one [saveImageToFile] call. *)
Record dl := Dl {
  dl_task : task;
  dl_requested : bool;             (* https.get was called *)
  dl_img_response : option bool;   (* what the awaited promise resolved with *)
  dl_responded : bool;             (* the response callback has run *)
  dl_streaming : bool;             (* the status-200 branch attached its listeners *)
  dl_writer_open : bool;           (* the write stream exists and was not ended *)
  dl_timer : bool;                 (* the setTimeout is pending *)
  dl_downloaded : Z;
  dl_total : spec_float
}.

Definition dl_skipped (t : task) : dl :=
  Dl t false None false false false false 0 JSNum.NaN.

Definition dl_requesting (t : task) : dl :=
  Dl t true None false false false false 0 JSNum.NaN.

(** The promise returned by [saveImageToFile] is fulfilled: either the
    file existed, or the awaited promise has been resolved. *)
Definition dl_settled (d : dl) : bool :=
  negb (dl_requested d)
  || match dl_img_response d with Some _ => true | None => false end.

Definition set_img_response (v : bool) (d : dl) : dl :=
  Dl (dl_task d) (dl_requested d) (Some v) (dl_responded d) (dl_streaming d)
     (dl_writer_open d) (dl_timer d) (dl_downloaded d) (dl_total d).

Definition set_responded (d : dl) : dl :=
  Dl (dl_task d) (dl_requested d) (dl_img_response d) true (dl_streaming d)
     (dl_writer_open d) (dl_timer d) (dl_downloaded d) (dl_total d).

Definition set_timer (b : bool) (d : dl) : dl :=
  Dl (dl_task d) (dl_requested d) (dl_img_response d) (dl_responded d) (dl_streaming d)
     (dl_writer_open d) b (dl_downloaded d) (dl_total d).

Definition set_writer_open (b : bool) (d : dl) : dl :=
  Dl (dl_task d) (dl_requested d) (dl_img_response d) (dl_responded d) (dl_streaming d)
     b (dl_timer d) (dl_downloaded d) (dl_total d).

Definition set_downloaded (n : Z) (d : dl) : dl :=
  Dl (dl_task d) (dl_requested d) (dl_img_response d) (dl_responded d) (dl_streaming d)
     (dl_writer_open d) (dl_timer d) n (dl_total d).

(** The status-200 branch: writer created, counters initialised, timer set. *)
Definition open_stream (total : spec_float) (d : dl) : dl :=
  Dl (dl_task d) (dl_requested d) (dl_img_response d) true true true true 0 total.

(** [resolve(v)] followed by the rest of [saveImageToFile] after the
    [await]: a second resolution of a promise is ignored. *)
Definition resolve (id : nat) (v : bool) (d : dl) : dl * list obs :=
  let t := dl_task d in
  match dl_img_response d with
  | Some _ => (d, [])
  | None =>
      (set_img_response v d,
       (if v then []
        else [ConsoleLogFailed (split_pop (file_path t)) (current_image t) (total_images t)])
       ++ [Settled id])
  end.

(** [onError(resolve)(err)] *)
Definition onError (id : nat) (message : string) (d : dl) : dl * list obs :=
  let '(d', out) := resolve id false d in
  (d', ConsoleError (file_path (dl_task d)) message :: out).

(** The percentage printed by the 'data' listener. *)
Definition progress (downloaded : Z) (total : spec_float) : spec_float :=
  JSNum.Math_min
    (JSNum.Math_round (JSNum.mul (JSNum.div (JSNum.of_Z downloaded) total) (JSNum.of_Z 100)))
    (JSNum.of_Z 100).

(** One callback of download [id].  A download that found its file has no
    listeners at all; a callback whose listener is not attached (yet, or
    any more) does nothing. *)
Definition handle (id : nat) (ev : dl_event) (d : dl) (fs : gset string)
    : dl * gset string * list obs :=
  let t := dl_task d in
  if negb (dl_requested d) then (d, fs, [])
  else
  match ev with
  | ReqError message =>
      let '(d', out) := onError id message d in (d', fs, out)
  | ReqTimeout =>
      let '(d', out) := onError id "Connection timeout" d in
      (d', fs, RequestDestroy id :: out)
  | Response statusCode content_length =>
      if dl_responded d then (d, fs, [])
      else if (statusCode =? 200)%Z then
        (open_stream (JSNum.parseInt content_length) d,
         {[file_path t]} ∪ fs,
         [CreateWriteStream id (file_path t); SetTimeout id])
      else
        let '(d', out) :=
          onError id ("Failed to download image: " +:+ pretty statusCode)
                  (set_responded d) in
        (d', fs, out)
  | Data chunk_length =>
      if dl_streaming d then
        let downloaded := dl_downloaded d + chunk_length in
        (set_downloaded downloaded d, fs,
         [StdoutWrite (split_pop (file_path t)) (progress downloaded (dl_total d))
                      (current_image t) (total_images t) false])
      else (d, fs, [])
  | WriterFinish =>
      if dl_streaming d then
        let '(d', out) := resolve id true (set_writer_open false (set_timer false d)) in
        (d', fs,
         ClearTimeout id
         :: StdoutWrite (split_pop (file_path t)) (JSNum.of_Z 100)
                        (current_image t) (total_images t) true
         :: out)
      else (d, fs, [])
  | WriterError message =>
      if dl_streaming d then
        let '(d', out) := onError id message (set_writer_open false (set_timer false d)) in
        (d', fs ∖ {[file_path t]},
         ClearTimeout id :: WriterEnd id :: Unlink id (file_path t) :: out)
      else (d, fs, [])
  | TimerFire =>
      if dl_timer d then
        let '(d', out) :=
          onError id "Download timeout" (set_writer_open false (set_timer false d)) in
        (d', fs ∖ {[file_path t]},
         ResDestroy id :: WriterEnd id :: Unlink id (file_path t) :: out)
      else (d, fs, [])
  end.

(** ** The world: filesystem, started downloads, trace *)

Record world := World {
  w_fs : gset string;
  w_tasks : list dl;      (* one entry per [saveImageToFile] call, in call order *)
  w_trace : list obs      (* oldest first *)
}.

Definition emit (out : list obs) (w : world) : world :=
  World (w_fs w) (w_tasks w) (w_trace w ++ out).

(** [saveImageToFile] up to its first suspension: the existence check, and
    either the "already exists" line or the request. *)
Definition saveImageToFile (t : task) (w : world) : world :=
  let id := length (w_tasks w) in
  if bool_decide (file_path t ∈ w_fs w) then
    World (w_fs w) (w_tasks w ++ [dl_skipped t])
          (w_trace w ++ [Started id;
                         ConsoleLogExists (split_pop (file_path t))
                                          (current_image t) (total_images t);
                         Settled id])
  else
    World (w_fs w) (w_tasks w ++ [dl_requesting t])
          (w_trace w ++ [Started id; HttpsGet id (image_url t)]).

(** Delivery of one callback to download [id]. *)
Definition dispatch (id : nat) (ev : dl_event) (w : world) : world :=
  match w_tasks w !! id with
  | Some d =>
      let '(d', fs', out) := handle id ev d (w_fs w) in
      World fs' (<[id := d']> (w_tasks w)) (w_trace w ++ out)
  | None => w
  end.

(** ** The event loop *)

(** What the environment delivers, in order. *)
Inductive event :=
| DlEvent (id : nat) (ev : dl_event)    (* a callback of download [id] *)
| PageEnd (chunks : list string)        (* 'data' chunks, then 'end', of the search response *)
| PageError (message : string).         (* 'error' of the search request *)

Inductive js_error :=
| SyntaxError
| TypeError
| RequestError (message : string)
| SystemError (code : string).          (* thrown by the [fs] module *)

(** How an asynchronous function ends. *)
Inductive outcome :=
| Completed                  (* its promise is fulfilled *)
| Rejected (e : js_error)    (* its promise is rejected; nothing catches it *)
| Uncaught (e : js_error)    (* a callback threw: the process dies there *)
| Stalled                    (* the events ran out while it was suspended *)
| Diverges.                  (* a loop that never ends and never suspends *)

(** All promises of the batch whose first task has number [n0] are settled. *)
Definition all_settled (n0 : nat) (w : world) : bool :=
  forallb dl_settled (drop n0 (w_tasks w)).

Definition deliver (e : event) (w : world) : world :=
  match e with
  | DlEvent id ev => dispatch id ev w
  | _ => w
  end.

(** [await Promise.all(promises)]: callbacks are delivered until every
    promise of the batch is settled. *)
Fixpoint await_all (n0 : nat) (evs : list event) (w : world)
    : world * list event * bool :=
  if all_settled n0 w then (w, evs, true)
  else match evs with
       | [] => (w, [], false)
       | e :: evs' => await_all n0 evs' (deliver e w)
       end.

(** [batch.map(...)]: the callback runs on each item in turn; a throw
    leaves the downloads it already started in flight. *)
Fixpoint map_batch (mk : nat → json → option task) (index : nat)
    (batch : list json) (w : world) : world * bool :=
  match batch with
  | [] => (w, true)
  | data :: rest =>
      match mk index data with
      | Some t => map_batch mk (S index) rest (saveImageToFile t w)
      | None => (w, false)
      end
  end.

(** The [for] loop of [downloadPage] over the batches. *)
Fixpoint run_batches (mk : nat → nat → json → option task)
    (bs : list (nat * list json)) (evs : list event) (w : world)
    : outcome * world * list event :=
  match bs with
  | [] => (Completed, w, evs)
  | (i, batch) :: bs' =>
      let n0 := length (w_tasks w) in
      match map_batch (mk i) 0 batch w with
      | (w1, false) => (Rejected TypeError, w1, evs)
      | (w1, true) =>
          match await_all n0 evs w1 with
          | (w2, evs2, true) => run_batches mk bs' evs2 w2
          | (w2, evs2, false) => (Stalled, w2, evs2)
          end
      end
  end.

(** The scheduler of one page: lines 341-352 for a decoded [pageData].
    With [batchSize = 0] and a non-empty page, [i += batchSize] leaves [i]
    at 0: every turn slices an empty batch and awaits [Promise.all([])],
    which yields to no callback, so nothing is started and the loop never
    ends. *)
Definition download_batches (batchSize : nat) (pageId totalCount : Z)
    (folderName : string) (offsetIndex : Z) (pageData : list json)
    (evs : list event) (w : world) : outcome * world * list event :=
  match batchSize, pageData with
  | O, _ :: _ => (Diverges, w, evs)
  | _, _ =>
      run_batches (mk_task pageId totalCount folderName offsetIndex)
                  (batches batchSize pageData) evs w
  end.

(** [URLSearchParams.set] *)
Fixpoint params_set (k v : string) (l : list (string * string)) : list (string * string) :=
  match l with
  | [] => [(k, v)]
  | (k', v') :: rest =>
      if String.eqb k k' then (k, v) :: filter (λ p, negb (String.eqb k p.1)) rest
      else (k', v') :: params_set k v rest
  end.

Definition truthy (v : json) : bool :=
  match v with
  | JNull => false
  | JBool b => b
  | JNum n => negb (n =? 0)%Z
  | JStr s => negb (String.eqb s EmptyString)
  | JArr _ | JObj _ => true
  end.

(** The wait for the search response: callbacks of earlier downloads may
    still arrive in between. *)
Fixpoint await_response (evs : list event) (w : world)
    : option (string + string) * world * list event :=
  match evs with
  | [] => (None, w, [])
  | DlEvent id ev :: evs' => await_response evs' (dispatch id ev w)
  | PageEnd chunks :: evs' => (Some (inl (String.concat EmptyString chunks)), w, evs')
  | PageError message :: evs' => (Some (inr message), w, evs')
  end.

(** The values of [page_index] in
    [for (page_index = start_page; page_index < start_page + pages_to_download; page_index++)],
    at most [fuel] of them; [bound] is the sum, and the comparison and the
    increment are those of binary64.  From 2^53 on the increment can leave
    [page_index] unchanged: the code then asks for the same page again and
    again. *)
Fixpoint page_indices (fuel : nat) (page_index : Z) (bound : spec_float) : list Z :=
  match fuel with
  | O => []
  | S fuel' =>
      if JSNum.lt (JSNum.of_Z page_index) bound then
        page_index
        :: page_indices fuel'
             (JSNum.to_Z (JSNum.add (JSNum.of_Z page_index) (JSNum.of_Z 1))) bound
      else []
  end.

(** Empty segments at the head of a list of path segments. *)
Fixpoint drop_empty (segments : list string) : list string :=
  match segments with
  | EmptyString :: rest => drop_empty rest
  | _ => segments
  end.

(** The directory a path lies in, trailing slashes apart: [None] for a
    path without a directory part and for a path directly under the root,
    whose parent exists. *)
Definition dirname (path : string) : option string :=
  match drop_empty (rev (split "/" path)) with
  | _ :: above =>
      match drop_empty above with
      | [] => None
      | dir => Some (String.concat "/" (rev dir))
      end
  | [] => None
  end.

(** [fs.mkdirSync(path)] finds the parent directory. *)
Definition mkdir_ok (path : string) (fs : gset string) : bool :=
  match dirname path with
  | Some dir => bool_decide (dir ∈ fs)
  | None => true
  end.

Section Page.

(** [JSON.parse]: [None] when it throws a SyntaxError. *)
Variable JSON_parse : string → option json.

(** The comparison [0 < v] on a parsed value; the loop only evaluates it
    on the [length] member of an object-valued [data]. *)
Variable zero_lt : json → bool.

(** The query parameters collected by the prompts. *)
Variable queryObject : list (string * string).

(** [response.data || []] as the loop sees it: the items to download, or
    [None] where reading it throws a TypeError. *)
Definition page_items (response : json) : option (list json) :=
  match response with
  | JNull => None
  | JObj fields =>
      match get_field "data" fields with
      | None => Some []
      | Some data =>
          if truthy data then
            match data with
            | JArr l => Some l
            | JStr _ => None
            | JObj members =>
                match get_field "length" members with
                | Some len => if zero_lt len then None else Some []
                | None => Some []
                end
            | _ => Some []
            end
          else Some []
      end
  | _ => Some []
  end.

Definition downloadPage (pageId totalCount : Z) (folderName : string)
    (offsetIndex : Z) (evs : list event) (w : world)
    : outcome * world * list event :=
  let pagePrams := params_set "page" (pretty pageId) queryObject in
  let w := emit [ConsoleLogUrl pagePrams; ApiGet pagePrams] w in
  match await_response evs w with
  | (None, w, evs) => (Stalled, w, evs)
  | (Some (inr message), w, evs) => (Rejected (RequestError message), w, evs)
  | (Some (inl data), w, evs) =>
      match JSON_parse data with
      | None => (Uncaught SyntaxError, w, evs)
      | Some response =>
          match page_items response with
          | None => (Rejected TypeError, w, evs)
          | Some pageData =>
              download_batches CONCURRENCY_LIMIT pageId totalCount folderName
                               offsetIndex pageData evs w
          end
      end
  end.

(** The page loop of [main]. *)
Fixpoint page_loop (pages : list Z) (totalCount : Z) (folderName : string)
    (offsetIndex : Z) (evs : list event) (w : world)
    : outcome * world * list event :=
  match pages with
  | [] => (Completed, w, evs)
  | page_index :: pages' =>
      match downloadPage page_index totalCount folderName offsetIndex evs w with
      | (Completed, w', evs') =>
          page_loop pages' totalCount folderName offsetIndex evs' w'
      | r => r
      end
  end.

(** [main] from the creation of the folder on; the prompts have filled
    [queryObject] and produced the three arguments.  [fs.mkdirSync] throws
    when the parent directory is missing, which rejects [main] before any
    page is requested.  The page loop is cut after [S (length evs)] turns:
    a page that completes consumes at least the callback that ends its
    response, so a longer loop stalls before that turn. *)
Definition main (FOLDER_NAME : string) (start_page pages_to_download : Z)
    (evs : list event) (w : world) : outcome * world * list event :=
  if bool_decide (FOLDER_NAME ∈ w_fs w) || mkdir_ok FOLDER_NAME (w_fs w) then
    let w :=
      if bool_decide (FOLDER_NAME ∈ w_fs w) then w
      else World ({[FOLDER_NAME]} ∪ w_fs w) (w_tasks w) (w_trace w ++ [Mkdir FOLDER_NAME]) in
    let total_images_to_download :=
      JSNum.to_Z (JSNum.mul (JSNum.of_Z 24) (JSNum.of_Z pages_to_download)) in
    page_loop (page_indices (S (length evs)) (JSNum.to_Z (JSNum.of_Z start_page))
                 (JSNum.add (JSNum.of_Z start_page) (JSNum.of_Z pages_to_download)))
              total_images_to_download FOLDER_NAME
              (JSNum.to_Z (JSNum.mul (JSNum.of_Z start_page) (JSNum.of_Z 24))) evs w
  else (Rejected (SystemError "ENOENT"), w, evs).

End Page.

(** ** Auxiliary notions used in the statements *)

(** Delivery of a sequence of callbacks. *)
Definition deliver_all (evs : list event) (w : world) : world :=
  foldl (λ w e, deliver e w) w evs.

(** The part of the trace of [w'] written since [w]. *)
Definition new_trace (w w' : world) : list obs :=
  drop (length (w_trace w)) (w_trace w').

(** In [tr], from position [base] on, whenever a task of a later batch is
    started, every task of an earlier batch has been settled before; tasks
    are numbered from [n0] and batches have [L] tasks. *)
Definition barrier (base n0 L : nat) (tr : list obs) : Prop :=
  ∀ q a b, (base ≤ q)%nat → tr !! q = Some (Started (n0 + b)) →
    (a `div` L < b `div` L)%nat →
    ∃ q', (base ≤ q' < q)%nat ∧ tr !! q' = Some (Settled (n0 + a)).

(** The effects of the synchronous part of [saveImageToFile]. *)
Definition is_start_obs (o : obs) : bool :=
  match o with
  | Started _ | HttpsGet _ _ | ConsoleLogExists _ _ _ | Settled _ => true
  | _ => false
  end.

Definition is_Started (o : obs) : bool :=
  match o with Started _ => true | _ => false end.

(** A settled download stays settled, and its settlement is in the trace. *)
Definition settled_logged (base n0 : nat) (w : world) : Prop :=
  ∀ id d, (n0 ≤ id)%nat → w_tasks w !! id = Some d → dl_settled d = true →
    ∃ q, (base ≤ q)%nat ∧ w_trace w !! q = Some (Settled id).

(** Task [n0 + j] of the table is the task of item [j] of the page. *)
Definition item_tasks (pageId totalCount : Z) (folderName : string) (offsetIndex : Z)
    (pageData : list json) (n0 : nat) (w : world) : Prop :=
  ∀ j t, map dl_task (w_tasks w) !! (n0 + j)%nat = Some t →
    ∃ data, pageData !! j = Some data
            ∧ mk_task pageId totalCount folderName offsetIndex 0%nat j data = Some t.

(** What holds all along a page: the first [done] tasks of the page belong
    to batches that are over. *)
Definition sched_inv (L base n0 done : nat) (w : world) : Prop :=
  (base ≤ length (w_trace w))%nat
  ∧ settled_logged base n0 w
  ∧ barrier base n0 L (w_trace w)
  ∧ (∀ a d, (a < done)%nat → w_tasks w !! (n0 + a)%nat = Some d → dl_settled d = true).

(** The files in [P] stay, the tasks that target them are skipped, and only
    tasks whose request was issued appear in a request or a write. *)
Definition keeps (P : gset string) (w : world) : Prop :=
  P ⊆ w_fs w
  ∧ (∀ id d, w_tasks w !! id = Some d → file_path (dl_task d) ∈ P →
       d = dl_skipped (dl_task d))
  ∧ (∀ id, ((∃ url, HttpsGet id url ∈ w_trace w)
            ∨ (∃ p, CreateWriteStream id p ∈ w_trace w)) →
       ∃ d, w_tasks w !! id = Some d ∧ dl_requested d = true).

(** The state of the world around a download [id] of task [t] that has
    not opened its file; [resp] tells whether its response has arrived. *)
Definition quiet (base : nat) (fs0 : gset string) (t : task) (id : nat)
    (resp : bool) (w : world) : Prop :=
  (∃ d, w_tasks w !! id = Some d ∧ dl_task d = t ∧ dl_requested d = true
        ∧ dl_streaming d = false ∧ dl_timer d = false ∧ dl_writer_open d = false
        ∧ dl_responded d = resp
        ∧ (dl_img_response d = Some false ∨ (resp = false ∧ dl_img_response d = None)))
  ∧ (base ≤ length (w_trace w))%nat
  ∧ (∀ p, CreateWriteStream id p ∉ drop base (w_trace w))
  ∧ (length (w_tasks w) = 1%nat → w_fs w = fs0).

(** Bytes received after the chunks of the given lengths. *)
Definition sum_Z (lens : list Z) : Z := foldr Z.add 0 lens.

Definition is_DlEvent (e : event) : bool :=
  match e with DlEvent _ _ => true | _ => false end.

(** Effects that no callback of a download produces: those of the page
    request and of the synchronous start of a task. *)
Definition is_page_obs (o : obs) : bool :=
  match o with
  | Started _ | HttpsGet _ _ | ConsoleLogExists _ _ _
  | ConsoleLogUrl _ | ApiGet _ | Mkdir _ => true
  | _ => false
  end.

(** ** Values used in the examples *)

Definition empty_world : world := World ∅ [] [].

Definition example_item (name : string) : json :=
  JObj [("id", JStr name); ("path", JStr ("https://w.wallhaven.cc/full/" +:+ name))].

Definition example_page : list json :=
  [example_item "a.jpg"; example_item "b.jpg"; example_item "c.jpg"].

Definition example_task : task :=
  Task "https://w.wallhaven.cc/full/a.jpg" "W/a.jpg" 1 24.

(** A stand-in for [JSON.parse] on the bodies the examples use. *)
Definition example_parse (body : string) : option json :=
  if String.eqb body "{}" then Some (JObj [])
  else if String.eqb body "[page]" then Some (JObj [("data", JArr example_page)])
  else None.

(** ** Terminal prompts: [promptUser] *)

(** What the prompts write to the terminal. *)
Inductive tty :=
| Ask (promptMessage : string)     (* rl.question *)
| Say (line : string).             (* console.log *)

(** How the promise of [promptUser] ends. *)
Inductive prompt_outcome :=
| Answered (input : string)   (* resolve(input) *)
| Waiting                     (* a question is pending and no line is left *)
| Abandoned.                  (* the second answer was invalid: resolve is never called *)

(** [validOptions.includes(input)] *)
Definition includes (input : string) (validOptions : list string) : bool :=
  existsb (String.eqb input) validOptions.

(** [input.trim() === ''] *)
Definition is_blank (input : string) : bool :=
  String.eqb (JSNum.skip_ws input) EmptyString.

(** [promptUser(message, validOptions, defaultValue)] run on the lines the
    user types: the outcome, the lines left and what was printed.
    [validOptions] is [None] for [null], [defaultValue] is [None] for
    [undefined]. *)
Definition promptUser (message : string) (validOptions : option (list string))
    (defaultValue : option string) (lines : list string)
    : prompt_outcome * list string * list tty :=
  let promptMessage :=
    match defaultValue with
    | Some dv => message +:+ " (default: " +:+ dv +:+ "): "
    | None => message
    end in
  match lines with
  | [] => (Waiting, [], [Ask promptMessage])
  | input :: lines =>
      let input :=
        match defaultValue with
        | Some dv => if is_blank input then dv else input
        | None => input
        end in
      match validOptions with
      | Some opts =>
          if negb (includes input opts) then
            let out := [Ask promptMessage;
                        Say "Invalid input. Please enter a valid option.";
                        Ask promptMessage] in
            match lines with
            | [] => (Waiting, [], out)
            | input2 :: lines =>
                if includes input2 opts then (Answered input2, lines, out)
                else (Abandoned, lines, out)
            end
          else (Answered input, lines, [Ask promptMessage])
      | None => (Answered input, lines, [Ask promptMessage])
      end
  end.

(** ** The query builders *)

Definition categories : list (string * string) :=
  [("all", "111"); ("anime", "010"); ("general", "100"); ("people", "001");
   ("ga", "110"); ("gp", "101")].

Definition purities : list (string * string) :=
  [("sfw", "100"); ("sketchy", "010"); ("nsfw", "001"); ("ws", "110");
   ("wn", "101"); ("sn", "011"); ("all", "111")].

Definition valid_ranges : list string := ["1d"; "3d"; "1w"; "1M"; "3M"; "6M"; "1y"].

(** [Object.keys(o)] and [o[k]] on the two tables. *)
Definition keys (o : list (string * string)) : list string := map fst o.

Fixpoint property (k : string) (o : list (string * string)) : option string :=
  match o with
  | [] => None
  | (k', v) :: rest => if String.eqb k k' then Some v else property k rest
  end.

(** The state the prompts thread: [queryObject], the lines still to be
    read and the terminal. *)
Record ui := UI {
  ui_query : list (string * string);
  ui_lines : list string;
  ui_tty : list tty
}.

(** An asynchronous step of the dialogue: [None] when its promise never
    resolves. *)
Definition flow (A : Type) : Type := ui → option A * ui.

Definition flow_ret {A} (x : A) : flow A := λ u, (Some x, u).

Definition flow_bind {A B} (f : flow A) (g : A → flow B) : flow B :=
  λ u, match f u with
       | (Some x, u') => g x u'
       | (None, u') => (None, u')
       end.

Definition console_log (line : string) : flow unit :=
  λ u, (Some tt, UI (ui_query u) (ui_lines u) (ui_tty u ++ [Say line])).

Definition queryObject_set (k v : string) : flow unit :=
  λ u, (Some tt, UI (params_set k v (ui_query u)) (ui_lines u) (ui_tty u)).

(** [await promptUser(...)] *)
Definition prompt (message : string) (validOptions : option (list string))
    (defaultValue : option string) : flow string :=
  λ u, let '(r, lines, out) := promptUser message validOptions defaultValue (ui_lines u) in
       let u' := UI (ui_query u) lines (ui_tty u ++ out) in
       match r with
       | Answered input => (Some input, u')
       | _ => (None, u')
       end.

Definition category_banner : string := "
****************************************************************
                        Category Codes
all     - Every wallpaper.
general - For 'general' wallpapers only.
anime   - For 'Anime' Wallpapers only.
people  - For 'people' wallpapers only.
ga      - For 'General' and 'Anime' wallpapers only.
gp      - For 'General' and 'People' wallpapers only.
****************************************************************
".

Definition purity_banner : string := "
****************************************************************
                        Purity Codes
sfw     - For 'Safe For Work'
sketchy - For 'Sketchy'
nsfw    - For 'Not Safe For Work'
ws      - For 'SFW' and 'Sketchy'
wn      - For 'SFW' and 'NSFW'
sn      - For 'Sketchy' and 'NSFW'
all     - For 'SFW', 'Sketchy' and 'NSFW'
****************************************************************
".

Definition selectCategoryTag : flow unit :=
  flow_bind (console_log category_banner) (λ _,
  flow_bind (prompt "Enter Category" (Some (keys categories)) (Some "all")) (λ input,
  let category := default "111" (property input categories) in
  queryObject_set "categories" category)).

Definition selectPurityTag : flow unit :=
  flow_bind (console_log purity_banner) (λ _,
  flow_bind (prompt "Enter Purity" (Some (keys purities)) (Some "sfw")) (λ input,
  let purity := default "100" (property input purities) in
  queryObject_set "purity" purity)).

Definition selectTopRange : flow unit :=
  flow_bind (prompt "Enter the range for toplist" (Some valid_ranges) (Some "1M")) (λ input,
  queryObject_set "topRange" input).

Definition buildCategoryQueryParams : flow unit :=
  flow_bind selectCategoryTag (λ _, selectPurityTag).

Definition buildLatestQueryParams : flow unit :=
  flow_bind selectTopRange (λ _, queryObject_set "sorting" "toplist").

Definition buildSearchQueryParams : flow unit :=
  flow_bind (prompt "Enter search query: " None None) (λ query,
  queryObject_set "q" query).

Definition buildToplistQueryParams : flow unit :=
  flow_bind selectCategoryTag (λ _,
  flow_bind selectPurityTag (λ _,
  flow_bind selectTopRange (λ _,
  flow_bind (queryObject_set "sorting" "toplist") (λ _,
  queryObject_set "order" "desc")))).

(** The double quote, which the message of [selectChoice] contains. *)
Definition dq : string := String (ascii_of_nat 34) EmptyString.

Definition choice_message : string :=
  "Choose how you want to download the image:
    Enter " +:+ dq +:+ "category" +:+ dq +:+ " for downloading wallpapers from specified categories
    Enter " +:+ dq +:+ "latest" +:+ dq +:+ " for downloading latest wallpapers
    Enter " +:+ dq +:+ "toplist" +:+ dq +:+ " for downloading top list wallpapers
    Enter " +:+ dq +:+ "search" +:+ dq +:+ " for downloading wallpapers from search
    Enter choice".

Definition selectChoice : flow string :=
  prompt choice_message (Some ["category"; "latest"; "search"; "toplist"]) (Some "toplist").

(** The part of [main] that picks the mode and fills [queryObject]
    (lines 382-392). *)
Definition main_query : flow string :=
  flow_bind selectChoice (λ choice,
  flow_bind
    (if String.eqb choice "category" then buildCategoryQueryParams
     else if String.eqb choice "latest" then buildLatestQueryParams
     else if String.eqb choice "toplist" then buildToplistQueryParams
     else if String.eqb choice "search" then buildSearchQueryParams
     else flow_ret tt)
    (λ _, flow_ret choice)).

(** [URLSearchParams.getAll] *)
Definition params_getAll (k : string) (l : list (string * string)) : list string :=
  map snd (filter (λ p, String.eqb k p.1 = true) l).

(** ** Code signing: [signMacOS] *)

Inductive sign_obs :=
| SignLog (line : string)                 (* console.log *)
| SignExec (command : string)             (* execSync *)
| SignError (line message : string).      (* console.error *)

(** One turn of the loop over the executables.  [execSync] gives the
    message of the error a command throws, [None] when it succeeds;
    [join(distPath, exe)] is [distPath/exe]. *)
Definition sign_one (distPath : string) (fs : gset string)
    (execSync : string → option string) (exe : string) : list sign_obs :=
  let exePath := distPath +:+ "/" +:+ exe in
  if bool_decide (exePath ∈ fs) then
    let command := "codesign --sign - " +:+ dq +:+ exePath +:+ dq in
    match execSync command with
    | None => [SignLog ("Signing " +:+ exe +:+ "..."); SignExec command;
               SignLog ("Successfully signed " +:+ exe)]
    | Some message => [SignLog ("Signing " +:+ exe +:+ "..."); SignExec command;
                       SignError ("Failed to sign " +:+ exe +:+ ":") message]
    end
  else [].

Definition macosExecutables : list string := ["wh-dl-macos-x64"; "wh-dl-macos-arm64"].

Definition signMacOS (platform distPath : string) (fs : gset string)
    (execSync : string → option string) : list sign_obs :=
  if negb (String.eqb platform "darwin") then
    [SignLog "Not on macOS, skipping code signing"]
  else flat_map (sign_one distPath fs execSync) macosExecutables.

(** ** Further notions used in the statements *)

Definition is_Settled (o : obs) : bool :=
  match o with Settled _ => true | _ => false end.


Definition is_SignExec (o : sign_obs) : bool :=
  match o with SignExec _ => true | _ => false end.

(** How many effects of a kind a trace holds. *)
Definition count (kind : obs → bool) (tr : list obs) : nat :=
  length (filter (λ o, kind o = true) tr).

(** The downloads of the table, from number [n] on, whose promise is not
    settled. *)
Definition unsettled (n : nat) (w : world) : nat :=
  length (filter (λ d, dl_settled d = false) (drop n (w_tasks w))).

(** At every moment of [tr] at most [L] started tasks are not settled. *)
Definition in_flight_bound (L : nat) (tr : list obs) : Prop :=
  ∀ k, (count is_Started (take k tr) ≤ count is_Settled (take k tr) + L)%nat.

(** What holds of the trace since position [base] while the batch that
    starts at task [n] is running and at most [cap] of its tasks have been
    started. *)
Definition flight (L base n cap : nat) (w : world) : Prop :=
  (base ≤ length (w_trace w))%nat
  ∧ in_flight_bound L (drop base (w_trace w))
  ∧ (count is_Started (drop base (w_trace w))
     ≤ count is_Settled (drop base (w_trace w)) + unsettled n w)%nat
  ∧ (unsettled n w ≤ cap)%nat
  ∧ (n ≤ length (w_tasks w))%nat.

(** No slash in a string. *)
Fixpoint no_slash (s : string) : bool :=
  match s with
  | EmptyString => true
  | String c s' => negb (Ascii.eqb c "/") && no_slash s'
  end.


(** A plain https URL, which [https.get] accepts: [https://], a host of
    dot-separated labels of lower-case letters and digits whose last label
    has letters only, then path segments of unreserved characters. *)
Fixpoint all_chars (ok : ascii → bool) (s : string) : bool :=
  match s with
  | EmptyString => true
  | String c s' => ok c && all_chars ok s'
  end.

Fixpoint strip_prefix (p s : string) : option string :=
  match p, s with
  | EmptyString, _ => Some s
  | String a p', String b s' => if Ascii.eqb a b then strip_prefix p' s' else None
  | String _ _, EmptyString => None
  end.

Definition is_lower (c : ascii) : bool :=
  let n := nat_of_ascii c in ((97 <=? n) && (n <=? 122))%nat.

Definition is_unreserved (c : ascii) : bool :=
  let n := nat_of_ascii c in
  (is_lower c || (65 <=? n) && (n <=? 90) || (48 <=? n) && (n <=? 57)
   || (n =? 45) || (n =? 46) || (n =? 95) || (n =? 126))%nat.

Definition host_label (s : string) : bool :=
  negb (String.eqb s EmptyString)
  && all_chars (λ c, is_lower c
                     || ((48 <=? nat_of_ascii c) && (nat_of_ascii c <=? 57))%nat) s.

Definition https_url (url : string) : bool :=
  match strip_prefix "https://" url with
  | Some rest =>
      match split "/" rest with
      | host :: path =>
          let labels := split "." host in
          forallb host_label labels
          && all_chars is_lower (List.last labels EmptyString)
          && forallb (all_chars is_unreserved) path
      | [] => false
      end
  | None => false
  end.

(** The percentage as the specification words it, in exact arithmetic:
    [min(round(bytesDownloaded / contentLength * 100), 100)], halves
    rounded up, for a positive [contentLength]. *)
Definition percent_exact (bytesDownloaded contentLength : Z) : Z :=
  Z.min ((2 * 100 * bytesDownloaded + contentLength) / (2 * contentLength)) 100.

(** ** The helpers on sample values *)

Example split_pop_url :
  split_pop "https://w.wallhaven.cc/full/ab/wallhaven-ab12cd.jpg" = "wallhaven-ab12cd.jpg".
Proof. reflexivity. Qed.

Example batch_starts_20 : batch_starts 20 CONCURRENCY_LIMIT 20 0 = [0; 8; 16]%nat.
Proof. reflexivity. Qed.

Example parseInt_samples :
  JSNum.parseInt (Some " 1024 bytes") = JSNum.of_Z 1024
  ∧ JSNum.parseInt (Some "") = JSNum.NaN
  ∧ JSNum.parseInt None = JSNum.NaN.
Proof. by vm_compute. Qed.

(** 50 of 200 bytes is 25%; 300 of 200 is capped at 100%; 29 of 200 is
    14%, because 29 / 200 * 100 is 14.499999999999998 in binary64. *)
Example progress_samples :
  progress 50 (JSNum.of_Z 200) = JSNum.of_Z 25
  ∧ progress 300 (JSNum.of_Z 200) = JSNum.of_Z 100
  ∧ progress 29 (JSNum.of_Z 200) = JSNum.of_Z 14.
Proof. by vm_compute. Qed.

(** A line of U+3000, or of U+00A0 and a space, is blank, and [parseInt]
    skips such white space. *)
Example is_blank_samples :
  is_blank (String (ascii_of_nat 227)
              (String (ascii_of_nat 128) (String (ascii_of_nat 128) EmptyString))) = true
  ∧ is_blank (String (ascii_of_nat 194) (String (ascii_of_nat 160) " ")) = true
  ∧ is_blank " x" = false
  ∧ JSNum.parseInt (Some (String (ascii_of_nat 194) (String (ascii_of_nat 160) "12")))
    = JSNum.of_Z 12.
Proof. by vm_compute. Qed.

Example https_url_samples :
  https_url "https://w.wallhaven.cc/full/ab/wallhaven-ab12cd.jpg" = true
  ∧ https_url "http://w.wallhaven.cc/full/a.jpg" = false
  ∧ https_url "https://1.2.3.4.5/a.jpg" = false
  ∧ https_url "w.wallhaven.cc/a.jpg" = false.
Proof. by vm_compute. Qed.

Example dirname_samples :
  dirname "/home/u/Wallpapers" = Some "/home/u"
  ∧ dirname "Wallpapers" = None
  ∧ dirname "/Wallpapers" = None
  ∧ dirname "a/b/" = Some "a".
Proof. by vm_compute. Qed.

(** From page 3, two pages: 3 and 4.  From page 2^53, one page: none,
    since 2^53 + 1 is 2^53 in binary64.  From page 2^53, three pages: the
    bound is 2^53 + 4 and the increment leaves 2^53 where it is, so the
    same page is asked for at every turn. *)
Example page_indices_samples :
  page_indices 5 3 (JSNum.add (JSNum.of_Z 3) (JSNum.of_Z 2)) = [3; 4]
  ∧ page_indices 5 (2 ^ 53) (JSNum.add (JSNum.of_Z (2 ^ 53)) (JSNum.of_Z 1)) = []
  ∧ page_indices 3 (2 ^ 53) (JSNum.add (JSNum.of_Z (2 ^ 53)) (JSNum.of_Z 3))
    = [2 ^ 53; 2 ^ 53; 2 ^ 53].
Proof. by vm_compute. Qed.

(** ** Binary64 arithmetic on safe integers *)

Module JSNumFacts.
Import JSNum.

Lemma digits2_pos_size p : digits2_pos p = Pos.size p.
Proof. induction p as [p IH|p IH|]; simpl; by rewrite ?IH. Qed.

Lemma Zdigits2_log2 p : Zdigits2 (Z.pos p) = Z.log2 (Z.pos p) + 1.
Proof.
  simpl. rewrite digits2_pos_size. destruct p as [p|p|]; simpl; try lia.
Qed.

Lemma iter_pos_nat {A} (f : A → A) p x :
  SpecFloat.iter_pos f p x = Nat.iter (Pos.to_nat p) f x.
Proof.
  revert x. induction p as [p IH|p IH|]; intros x; cbn [SpecFloat.iter_pos].
  - rewrite !IH, Pos2Nat.inj_xI.
    replace (S (2 * Pos.to_nat p)) with (Pos.to_nat p + S (Pos.to_nat p))%nat by lia.
    by rewrite Nat.iter_add, Nat.iter_succ_r.
  - rewrite !IH, Pos2Nat.inj_xO.
    replace (2 * Pos.to_nat p)%nat with (Pos.to_nat p + Pos.to_nat p)%nat by lia.
    by rewrite Nat.iter_add.
  - done.
Qed.

Lemma shr_1_double x :
  0 ≤ x →
  shr_1 {| shr_m := 2 * x; shr_r := false; shr_s := false |}
  = {| shr_m := x; shr_r := false; shr_s := false |}.
Proof. intros Hx. destruct x as [|p|p]; [done|done|lia]. Qed.

Lemma shr_iter n x :
  0 ≤ x →
  Nat.iter n shr_1 {| shr_m := x * 2 ^ Z.of_nat n; shr_r := false; shr_s := false |}
  = {| shr_m := x; shr_r := false; shr_s := false |}.
Proof.
  revert x. induction n as [|n IH]; intros x Hx.
  - simpl. by rewrite Z.mul_1_r.
  - rewrite Nat2Z.inj_succ, Z.pow_succ_r by lia.
    replace (x * (2 * 2 ^ Z.of_nat n)) with (2 * x * 2 ^ Z.of_nat n) by lia.
    simpl. rewrite IH by lia. by apply shr_1_double.
Qed.

Lemma pos_iter_xO m d : Z.pos (Pos.iter xO m d) = Z.pos m * 2 ^ Z.pos d.
Proof.
  rewrite Pos2Nat.inj_iter, <- (positive_nat_Z d).
  induction (Pos.to_nat d) as [|n IH]; simpl nat_rect.
  - simpl. lia.
  - rewrite Nat2Z.inj_succ, Z.pow_succ_r, Pos2Z.inj_xO, IH by lia. lia.
Qed.

(** Rounding a mantissa whose low bits are zero drops them. *)
Lemma round_aux_exact s M e n q :
  0 ≤ n → Z.pos M = Z.pos q * 2 ^ n → Z.log2 (Z.pos q) = 52 →
  -1074 ≤ e + n ≤ 971 →
  binary_round_aux prec emax s (Z.pos M) e loc_Exact = S754_finite s q (e + n).
Proof.
  intros Hn HM Hq He.
  assert (Z.log2 (Z.pos M) = n + 52) as HlM.
  { rewrite HM, Z.log2_mul_pow2 by lia. lia. }
  unfold binary_round_aux, shr_fexp.
  rewrite Zdigits2_log2, HlM.
  replace (fexp prec emax (n + 52 + 1 + e) - e) with n
    by (unfold fexp, SpecFloat.emin, prec, emax; lia).
  assert (shr (shr_record_of_loc (Z.pos M) loc_Exact) e n
          = ({| shr_m := Z.pos q; shr_r := false; shr_s := false |}, e + n)) as ->.
  { unfold shr. simpl shr_record_of_loc. destruct n as [|p|p]; [| |lia].
    - rewrite Z.add_0_r. f_equal. f_equal. lia.
    - f_equal. rewrite iter_pos_nat, HM, <- (positive_nat_Z p).
      by apply shr_iter. }
  simpl shr_m. simpl loc_of_shr_record. simpl round_nearest_even.
  rewrite Zdigits2_log2, Hq.
  replace (fexp prec emax (52 + 1 + (e + n)) - (e + n)) with 0
    by (unfold fexp, SpecFloat.emin, prec, emax; lia).
  simpl. replace (e + n <=? emax - prec) with true; [done|].
  symmetry. apply Z.leb_le. unfold emax, prec. lia.
Qed.

Lemma log2_safe z : safe z → 0 ≤ Z.log2 (Z.abs z) ≤ 52.
Proof.
  intros Hz. split; [apply Z.log2_nonneg|].
  destruct (Z.eq_dec z 0) as [->|Hnz]; [simpl; lia|].
  assert (Z.log2 (Z.abs z) < 53); [|lia].
  apply Z.log2_lt_pow2; unfold safe in Hz; lia.
Qed.

Lemma mant_spec z :
  z ≠ 0 → safe z →
  Z.pos (mant z) = Z.abs z * 2 ^ (- expo z) ∧ Z.log2 (Z.pos (mant z)) = 52
  ∧ -52 ≤ expo z ≤ 0.
Proof.
  intros Hnz Hz. pose proof (log2_safe z Hz) as Hl. unfold mant, expo.
  assert (0 < Z.abs z * 2 ^ (52 - Z.log2 (Z.abs z))) as Hpos.
  { apply Z.mul_pos_pos; [lia|]. apply Z.pow_pos_nonneg; lia. }
  rewrite Z2Pos.id by done. split_and!.
  - f_equal. f_equal. lia.
  - rewrite Z.log2_mul_pow2 by lia. lia.
  - lia.
  - lia.
Qed.

Lemma round_int s M e z :
  e ≤ 0 → z ≠ 0 → safe z → Z.pos M = Z.abs z * 2 ^ (- e) →
  binary_round prec emax s M e = S754_finite s (mant z) (expo z).
Proof.
  intros He Hnz Hz HM.
  destruct (mant_spec z Hnz Hz) as (Hm & Hlm & Hex).
  pose proof (log2_safe z Hz) as Hl.
  assert (Z.log2 (Z.pos M) = - e + Z.log2 (Z.abs z)) as HlM.
  { rewrite HM, Z.log2_mul_pow2 by lia. lia. }
  unfold binary_round.
  change (Z.pos (digits2_pos M)) with (Zdigits2 (Z.pos M)).
  rewrite Zdigits2_log2, HlM.
  replace (fexp prec emax (- e + Z.log2 (Z.abs z) + 1 + e)) with (expo z)
    by (unfold fexp, SpecFloat.emin, prec, emax, expo; lia).
  unfold shl_align. destruct (expo z - e) as [|p|p] eqn:Hd.
  - replace (expo z) with (e + 0) by lia.
    apply round_aux_exact; [lia| |done|lia].
    rewrite Hm, HM. replace (- expo z) with (- e) by lia. lia.
  - replace (expo z) with (e + Z.pos p) by lia.
    apply round_aux_exact; [lia| |done|lia].
    rewrite Hm, HM. replace (- e) with (- expo z + Z.pos p) by lia.
    rewrite Z.pow_add_r by lia. lia.
  - replace (expo z) with (expo z + 0) at 2 by lia.
    apply round_aux_exact; [lia| |done|lia].
    rewrite pos_iter_xO, Hm, HM.
    replace (- expo z) with (- e + Z.pos p) by lia.
    rewrite Z.pow_add_r by lia. lia.
Qed.

Lemma normalize_int m e z :
  e ≤ 0 → safe z → m = z * 2 ^ (- e) →
  binary_normalize prec emax m e false
  = if Z.eq_dec z 0 then S754_zero false
    else S754_finite (z <? 0) (mant z) (expo z).
Proof.
  intros He Hz Hm.
  assert (0 < 2 ^ (- e)) as Hp by (apply Z.pow_pos_nonneg; lia).
  destruct (Z.eq_dec z 0) as [->|Hnz]; [by subst m|].
  unfold binary_normalize. destruct m as [|M|M].
  - nia.
  - assert (0 < z) by nia. replace (z <? 0) with false by (symmetry; apply Z.ltb_ge; lia).
    apply round_int; [done|done|done|]. rewrite Z.abs_eq by lia. done.
  - assert (z < 0) by nia. replace (z <? 0) with true by (symmetry; apply Z.ltb_lt; lia).
    apply round_int; [done|done|done|]. rewrite Z.abs_neq by lia. lia.
Qed.


Lemma of_Z_safe z :
  safe z → z ≠ 0 → of_Z z = S754_finite (z <? 0) (mant z) (expo z).
Proof.
  intros Hz Hnz. unfold of_Z. rewrite (normalize_int z 0 z) by (try done; simpl; lia).
  by destruct (Z.eq_dec z 0).
Qed.











(** Rounding never produces NaN and never lowers the exponent. *)
Lemma shr_1_nonneg mrs : 0 ≤ shr_m mrs → 0 ≤ shr_m (shr_1 mrs).
Proof. destruct mrs as [[|[p|p|]|p] r s]; simpl; lia. Qed.

Lemma shr_nonneg mrs e n :
  0 ≤ shr_m mrs → 0 ≤ shr_m (shr mrs e n).1 ∧ e ≤ (shr mrs e n).2.
Proof.
  intros Hm. unfold shr. destruct n as [|p|p]; simpl; [lia| |lia].
  split; [|lia]. rewrite iter_pos_nat.
  induction (Pos.to_nat p) as [|k IH]; simpl; [done|]. by apply shr_1_nonneg.
Qed.

Lemma shr_fexp_nonneg m e l :
  0 ≤ m → 0 ≤ shr_m (shr_fexp prec emax m e l).1 ∧ e ≤ (shr_fexp prec emax m e l).2.
Proof.
  intros Hm. unfold shr_fexp. apply shr_nonneg. by destruct l as [|[]].
Qed.

Lemma round_nearest_even_nonneg m l : 0 ≤ m → 0 ≤ round_nearest_even m l.
Proof. intros Hm. destruct l as [|[]]; simpl; try lia. destruct (Z.even m); lia. Qed.

Lemma round_aux_shape s m e l :
  0 ≤ m →
  match binary_round_aux prec emax s m e l with
  | S754_nan => False
  | S754_finite _ _ e' => e ≤ e'
  | _ => True
  end.
Proof.
  intros Hm. unfold binary_round_aux.
  pose proof (shr_fexp_nonneg m e l Hm) as [H1 H1'].
  destruct (shr_fexp prec emax m e l) as [mrs' e']. simpl in H1, H1'.
  pose proof (shr_fexp_nonneg _ e' loc_Exact
                (round_nearest_even_nonneg _ (loc_of_shr_record mrs') H1)) as [H2 H2'].
  destruct (shr_fexp prec emax _ e' loc_Exact) as [mrs'' e'']. simpl in H2, H2'.
  destruct (shr_m mrs'') as [|p|p]; [done| |lia].
  destruct (e'' <=? emax - prec); [lia|done].
Qed.

(** The Number of an integer is integral, or an infinity. *)
Lemma of_Z_integer z :
  is_integer (of_Z z) = true ∨ ∃ s, of_Z z = S754_infinity s.
Proof.
  destruct (Z.eq_dec z 0) as [->|Hnz]; [by left|].
  destruct (Z_lt_le_dec (Z.abs z) (2 ^ 53)) as [Hs|Hbig].
  - left. assert (safe z) as Hz by (unfold safe; lia).
    rewrite of_Z_safe by done.
    destruct (mant_spec z Hnz Hz) as (Hm & _ & He).
    unfold is_integer. rewrite Hm, Z.mod_mul; [by rewrite orb_true_r|].
    apply Z.pow_nonzero; lia.
  - assert (∀ s p, 2 ^ 53 ≤ Z.pos p →
              is_integer (binary_round prec emax s p 0) = true
              ∨ ∃ s', binary_round prec emax s p 0 = S754_infinity s') as Hr.
    { intros s p Hp. unfold binary_round.
      change (Z.pos (digits2_pos p)) with (Zdigits2 (Z.pos p)).
      rewrite Zdigits2_log2.
      assert (53 ≤ Z.log2 (Z.pos p)) by (apply Z.log2_le_pow2; lia).
      unfold shl_align.
      destruct (fexp prec emax (Z.log2 (Z.pos p) + 1 + 0) - 0) as [|d|d] eqn:Hd.
      1,2: pose proof (round_aux_shape s (Z.pos p) 0 loc_Exact ltac:(lia)) as Hsh;
           destruct (binary_round_aux prec emax s (Z.pos p) 0 loc_Exact) as [| | |s' m' e'];
           [by left|by right; eexists|done|];
           left; simpl; by replace (0 <=? e') with true by (symmetry; apply Z.leb_le; lia).
      unfold fexp, SpecFloat.emin, prec, emax in Hd. lia. }
    unfold of_Z, binary_normalize. destruct z as [|p|p]; [done|apply Hr; lia|apply Hr; lia].
Qed.

Lemma Math_round_cases x :
  Math_round x = NaN ∨ (∃ s, Math_round x = S754_infinity s)
  ∨ is_integer (Math_round x) = true.
Proof.
  destruct x as [s|s| |s m e]; simpl; [by right; right|by right; left; eexists|by left|].
  destruct (Z.leb_spec 0 e) as [He|He].
  - right; right. simpl. by replace (0 <=? e) with true by (symmetry; apply Z.leb_le; lia).
  - destruct (_ =? 0); [by right; right|].
    destruct (of_Z_integer ((2 * (if s then Z.neg m else Z.pos m) + 2 ^ (- e))
                             / (2 * 2 ^ (- e)))) as [?|[s' ?]];
      [by right; right|right; left; by exists s'].
Qed.

(** A Number divided by itself is 1. *)
Lemma div_self t : t ≠ 0 → safe t → div (of_Z t) (of_Z t) = of_Z 1.
Proof.
  intros Hnz Hs. rewrite of_Z_safe by done.
  destruct (mant_spec t Hnz Hs) as (Hm & Hl & He).
  unfold div, SFdiv, SFdiv_core_binary.
  rewrite Zdigits2_log2, Hl.
  replace (Z.min (fexp prec emax (52 + 1 + expo t - (52 + 1 + expo t))) (expo t - expo t))
    with (-53) by (unfold fexp, SpecFloat.emin, prec, emax; lia).
  replace (expo t - expo t - -53) with 53 by lia.
  rewrite Z.shiftl_mul_pow2 by lia.
  pose proof (Z.div_eucl_eq (Z.pos (mant t) * 2 ^ 53) (Z.pos (mant t)) ltac:(lia)) as Heq.
  pose proof (Z.mod_pos_bound (Z.pos (mant t) * 2 ^ 53) (Z.pos (mant t)) ltac:(lia)) as Hb.
  unfold Z.modulo in Hb.
  destruct (Z.div_eucl (Z.pos (mant t) * 2 ^ 53) (Z.pos (mant t))) as [q r].
  assert (q = 2 ^ 53 ∧ r = 0) as [-> ->].
  { generalize dependent (2 ^ 53). intros K Heq.
    destruct (Z.lt_trichotomy q K) as [?|[?|?]]; nia. }
  replace (new_location (Z.pos (mant t)) 0) with loc_Exact
    by (unfold new_location, new_location_even, new_location_odd;
        by destruct (Z.even (Z.pos (mant t)))).
  replace (xorb (t <? 0) (t <? 0)) with false by by destruct (t <? 0).
  done.
Qed.

End JSNumFacts.

(** ** Batches partition the page *)

Lemma slice_lookup {A} (l : list A) i L index x :
  slice i (i + L) l !! index = Some x → l !! (i + index)%nat = Some x ∧ (index < L)%nat.
Proof.
  unfold slice. replace (i + L - i)%nat with L by lia.
  intros H. apply lookup_take_Some in H as [H ?]. by rewrite lookup_drop in H.
Qed.

Lemma slice_length {A} (l : list A) i L :
  length (slice i (i + L) l) = (L `min` (length l - i))%nat.
Proof.
  unfold slice. replace (i + L - i)%nat with L by lia.
  by rewrite length_take, length_drop.
Qed.


Lemma mk_task_shift pageId totalCount folderName offsetIndex i index data :
  mk_task pageId totalCount folderName offsetIndex i index data
  = mk_task pageId totalCount folderName offsetIndex 0 (i + index) data.
Proof.
  unfold mk_task, curImage. destruct (item_path data); [|done].
  by replace (Z.of_nat 0 + Z.of_nat (i + index) + 1)
    with (Z.of_nat i + Z.of_nat index + 1) by lia.
Qed.



(** ** Primitive steps and the task table *)

Lemma resolve_task id v d : dl_task (resolve id v d).1 = dl_task d.
Proof. unfold resolve. by destruct (dl_img_response d). Qed.

Lemma resolve_requested id v d : dl_requested (resolve id v d).1 = dl_requested d.
Proof. unfold resolve. by destruct (dl_img_response d). Qed.

Lemma onError_fst id m d : (onError id m d).1 = (resolve id false d).1.
Proof. unfold onError. by destruct (resolve id false d). Qed.

Lemma onError_snd id m d :
  (onError id m d).2 = ConsoleError (file_path (dl_task d)) m :: (resolve id false d).2.
Proof. unfold onError. by destruct (resolve id false d). Qed.

(** Unfolds one handler call into its three components. *)
Ltac handle_cases d ev :=
  unfold handle;
  destruct (dl_requested d) eqn:Hreq; simpl;
  [ destruct ev; simpl;
    repeat match goal with
    | |- context [if dl_responded d then _ else _] => destruct (dl_responded d) eqn:?; simpl
    | |- context [if dl_streaming d then _ else _] => destruct (dl_streaming d) eqn:?; simpl
    | |- context [if dl_timer d then _ else _] => destruct (dl_timer d) eqn:?; simpl
    | |- context [if (?s =? 200)%Z then _ else _] => destruct (Z.eqb_spec s 200); simpl
    | |- context [let '(_, _) := onError ?i ?m ?x in _] =>
        rewrite (surjective_pairing (onError i m x)), ?onError_fst, ?onError_snd; simpl
    | |- context [let '(_, _) := resolve ?i ?v ?x in _] =>
        rewrite (surjective_pairing (resolve i v x)); simpl
    end
  | ].

Lemma handle_task id ev d fs : dl_task (handle id ev d fs).1.1 = dl_task d.
Proof. handle_cases d ev; rewrite ?resolve_task; done. Qed.

Lemma handle_requested id ev d fs :
  dl_requested (handle id ev d fs).1.1 = dl_requested d.
Proof. handle_cases d ev; rewrite ?resolve_requested; simpl; done. Qed.

Lemma dispatch_tasks id ev w :
  map dl_task (w_tasks (dispatch id ev w)) = map dl_task (w_tasks w).
Proof.
  unfold dispatch. destruct (w_tasks w !! id) as [d|] eqn:Hd; [|done].
  pose proof (handle_task id ev d (w_fs w)) as Ht.
  destruct (handle id ev d (w_fs w)) as [[d' fs'] out]; simpl in *.
  rewrite list_fmap_insert, Ht.
  apply list_insert_id. by rewrite list_lookup_fmap, Hd.
Qed.

Lemma deliver_tasks e w : map dl_task (w_tasks (deliver e w)) = map dl_task (w_tasks w).
Proof. destruct e; simpl; auto using dispatch_tasks. Qed.

Lemma await_all_tasks n0 evs w :
  map dl_task (w_tasks (await_all n0 evs w).1.1) = map dl_task (w_tasks w).
Proof.
  revert w. induction evs as [|e evs IH]; intros w; simpl.
  - by destruct (all_settled n0 w).
  - destruct (all_settled n0 w); [done|]. by rewrite IH, deliver_tasks.
Qed.

Lemma saveImageToFile_tasks t w :
  map dl_task (w_tasks (saveImageToFile t w)) = map dl_task (w_tasks w) ++ [t].
Proof.
  unfold saveImageToFile. case_bool_decide; simpl; by rewrite map_app.
Qed.

(** The tasks a batch starts are those of its items, in order. *)
Lemma map_batch_tasks mk batch : ∀ index w,
  ∃ ts, map dl_task (w_tasks (map_batch mk index batch w).1)
        = map dl_task (w_tasks w) ++ ts
      ∧ (∀ k t, ts !! k = Some t →
           ∃ data, batch !! k = Some data ∧ mk (index + k)%nat data = Some t)
      ∧ ((map_batch mk index batch w).2 = true → length ts = length batch).
Proof.
  induction batch as [|data rest IH]; intros index w; simpl.
  - exists []. rewrite app_nil_r. split_and!; [done|intros ?? H; by rewrite lookup_nil in H|done].
  - destruct (mk index data) as [t|] eqn:Hmk; simpl.
    + destruct (IH (S index) (saveImageToFile t w)) as (ts & Hts & Hk & Hlen).
      exists (t :: ts). split_and!.
      * by rewrite Hts, saveImageToFile_tasks, <- app_assoc.
      * intros [|k] t'; simpl.
        -- intros [= <-]. exists data. by rewrite Nat.add_0_r.
        -- intros (data' & ? & ?)%Hk. exists data'.
           by replace (index + S k)%nat with (S index + k)%nat by lia.
      * intros ?. simpl. by rewrite Hlen.
    + exists []. rewrite app_nil_r. split_and!; [done|intros ?? H; by rewrite lookup_nil in H|done].
Qed.

(** ** What a callback can and cannot do *)

Lemma resolve_out_start id v d : Forall (λ o, is_Started o = false) (resolve id v d).2.
Proof.
  unfold resolve. destruct (dl_img_response d); simpl; [constructor|].
  destruct v; simpl; repeat constructor.
Qed.

Lemma resolve_settled id v d :
  dl_requested d = true → dl_settled (resolve id v d).1 = true.
Proof.
  unfold resolve, dl_settled. intros Hr.
  destruct (dl_img_response d) eqn:Hi; simpl; rewrite ?Hi, ?Hr; done.
Qed.

Lemma resolve_newly id v d :
  dl_img_response d = None → Settled id ∈ (resolve id v d).2.
Proof.
  unfold resolve. intros ->. destruct v; simpl; set_solver.
Qed.

Lemma handle_no_started id ev d fs :
  Forall (λ o, is_Started o = false) (handle id ev d fs).2.
Proof.
  handle_cases d ev;
    repeat (first [apply Forall_nil_2 | apply resolve_out_start
                  | apply Forall_cons_2; [done|]]).
Qed.

Lemma handle_settled id ev d fs :
  dl_settled d = true → dl_settled (handle id ev d fs).1.1 = true.
Proof.
  handle_cases d ev; try done;
    try (intros _; by apply resolve_settled);
    unfold dl_settled; simpl; rewrite ?Hreq; done.
Qed.

Lemma handle_newly_settled id ev d fs :
  dl_settled d = false → dl_settled (handle id ev d fs).1.1 = true →
  Settled id ∈ (handle id ev d fs).2.
Proof.
  unfold dl_settled at 1. intros Hs.
  assert (dl_img_response d = None) as Hi.
  { destruct (dl_img_response d); [|done]. by rewrite orb_true_r in Hs. }
  handle_cases d ev;
    try (intros _; repeat apply list_elem_of_further; apply resolve_newly; simpl;
         exact Hi);
    unfold dl_settled; simpl; rewrite ?Hreq, ?Hi in *; simpl in *; congruence.
Qed.

Lemma dispatch_length id ev w : length (w_tasks (dispatch id ev w)) = length (w_tasks w).
Proof.
  unfold dispatch. destruct (w_tasks w !! id); [|done].
  destruct (handle _ _ _ _) as [[??]?]; simpl. by rewrite length_insert.
Qed.

Lemma dispatch_other id ev w id' :
  id ≠ id' → w_tasks (dispatch id ev w) !! id' = w_tasks w !! id'.
Proof.
  intros Hne. unfold dispatch. destruct (w_tasks w !! id); [|done].
  destruct (handle _ _ _ _) as [[??]?]; simpl. by rewrite list_lookup_insert_ne.
Qed.

Lemma dispatch_same id ev w d :
  w_tasks w !! id = Some d →
  w_tasks (dispatch id ev w) !! id = Some (handle id ev d (w_fs w)).1.1
  ∧ w_trace (dispatch id ev w) = w_trace w ++ (handle id ev d (w_fs w)).2
  ∧ w_fs (dispatch id ev w) = (handle id ev d (w_fs w)).1.2.
Proof.
  intros Hd. unfold dispatch. rewrite Hd.
  destruct (handle _ _ _ _) as [[??]?] eqn:?; simpl.
  split_and!; try done. apply list_lookup_insert_eq. by eapply lookup_lt_Some.
Qed.

Lemma dispatch_none id ev w : w_tasks w !! id = None → dispatch id ev w = w.
Proof. intros Hd. unfold dispatch. by rewrite Hd. Qed.

(** Every step only appends to the trace. *)
Lemma dispatch_trace id ev w :
  ∃ out, w_trace (dispatch id ev w) = w_trace w ++ out
       ∧ Forall (λ o, is_Started o = false) out.
Proof.
  destruct (w_tasks w !! id) as [d|] eqn:Hd.
  - destruct (dispatch_same id ev w d Hd) as (_ & -> & _).
    eexists. split; [done|]. apply handle_no_started.
  - rewrite dispatch_none by done. exists []. by rewrite app_nil_r.
Qed.

Lemma deliver_trace e w :
  ∃ out, w_trace (deliver e w) = w_trace w ++ out
       ∧ Forall (λ o, is_Started o = false) out.
Proof.
  destruct e; simpl; try apply dispatch_trace;
    exists []; by rewrite app_nil_r.
Qed.

Lemma deliver_length e w : length (w_tasks (deliver e w)) = length (w_tasks w).
Proof. destruct e; simpl; auto using dispatch_length. Qed.

Lemma dispatch_settled_logged base n0 id ev w :
  (base ≤ length (w_trace w))%nat →
  settled_logged base n0 w → settled_logged base n0 (dispatch id ev w).
Proof.
  intros Hb Hw id' d' Hid' Hd' Hs'.
  destruct (w_tasks w !! id) as [d|] eqn:Hd; [|by rewrite dispatch_none in *; eauto].
  destruct (dispatch_same id ev w d Hd) as (Hl & Htr & _). rewrite Htr.
  destruct (decide (id = id')) as [->|Hne].
  - rewrite Hl in Hd'. injection Hd' as <-.
    destruct (dl_settled d) eqn:Hsd.
    + destruct (Hw id' d Hid' Hd Hsd) as (q & ? & Hq). exists q. split; [done|].
      by apply lookup_app_l_Some.
    + pose proof (handle_newly_settled id' ev d (w_fs w) Hsd Hs') as Hin.
      apply list_elem_of_lookup in Hin as [k Hk].
      exists (length (w_trace w) + k)%nat. split; [lia|].
      by rewrite lookup_app_r, Nat.add_comm, Nat.add_sub by lia.
  - rewrite dispatch_other in Hd' by done.
    destruct (Hw id' d' Hid' Hd' Hs') as (q & ? & Hq). exists q. split; [done|].
    by apply lookup_app_l_Some.
Qed.

Lemma dispatch_settled_mono id ev w id' d :
  w_tasks w !! id' = Some d → dl_settled d = true →
  ∃ d', w_tasks (dispatch id ev w) !! id' = Some d' ∧ dl_settled d' = true.
Proof.
  intros Hd Hs. destruct (decide (id = id')) as [->|Hne].
  - destruct (dispatch_same id' ev w d Hd) as (Hl & _). eexists. split; [done|].
    by apply handle_settled.
  - exists d. by rewrite dispatch_other.
Qed.

(** ** The barrier between batches *)

Lemma barrier_app_nostart base n0 L tr out :
  barrier base n0 L tr → Forall (λ o, is_Started o = false) out →
  barrier base n0 L (tr ++ out).
Proof.
  intros Hb Hout q a b Hq Hlook Hdiv.
  apply lookup_app_Some in Hlook as [Hlook|[_ Hlook]].
  - destruct (Hb q a b Hq Hlook Hdiv) as (q' & ? & ?).
    exists q'. split; [done|]. by apply lookup_app_l_Some.
  - rewrite Forall_lookup in Hout. by apply Hout in Hlook.
Qed.

Lemma barrier_app_start base n0 L tr b rest :
  barrier base n0 L tr →
  (∀ a, (a `div` L < b `div` L)%nat →
        ∃ q', (base ≤ q' < length tr)%nat ∧ tr !! q' = Some (Settled (n0 + a))) →
  Forall (λ o, is_Started o = false) rest →
  barrier base n0 L (tr ++ Started (n0 + b) :: rest).
Proof.
  intros Hb Hnew Hrest q a b' Hq Hlook Hdiv.
  apply lookup_app_Some in Hlook as [Hlook|[Hge Hlook]].
  - destruct (Hb q a b' Hq Hlook Hdiv) as (q' & ? & ?).
    exists q'. split; [done|]. by apply lookup_app_l_Some.
  - destruct (q - length tr)%nat as [|k] eqn:Hk; simpl in Hlook.
    + injection Hlook as Heq. assert (b' = b) as -> by lia.
      destruct (Hnew a Hdiv) as (q' & ? & ?).
      exists q'. split; [lia|]. by apply lookup_app_l_Some.
    + rewrite Forall_lookup in Hrest. by apply Hrest in Hlook.
Qed.

Lemma saveImageToFile_length t w :
  length (w_tasks (saveImageToFile t w)) = S (length (w_tasks w)).
Proof. unfold saveImageToFile. case_bool_decide; simpl; rewrite length_app; simpl; lia. Qed.

Lemma await_all_length n evs : ∀ w,
  length (w_tasks (await_all n evs w).1.1) = length (w_tasks w).
Proof.
  induction evs as [|e evs IH]; intros w; simpl.
  - by destruct (all_settled n w).
  - destruct (all_settled n w); [done|]. by rewrite IH, deliver_length.
Qed.

(** When the wait ends normally, every promise of the batch is settled. *)
Lemma await_all_settled n evs : ∀ w,
  (await_all n evs w).2 = true → all_settled n (await_all n evs w).1.1 = true.
Proof.
  induction evs as [|e evs IH]; intros w; simpl.
  - by destruct (all_settled n w) eqn:?.
  - destruct (all_settled n w) eqn:?; [done|]. apply IH.
Qed.

Lemma all_settled_lookup n w id d :
  all_settled n w = true → (n ≤ id)%nat → w_tasks w !! id = Some d →
  dl_settled d = true.
Proof.
  unfold all_settled. rewrite forallb_forall. intros Hall Hn Hd.
  apply Hall, list_elem_of_In, list_elem_of_lookup. exists (id - n)%nat.
  rewrite lookup_drop. by replace (n + (id - n))%nat with id by lia.
Qed.

Lemma map_batch_false mkf batch : ∀ index w,
  (map_batch mkf index batch w).2 = false →
  ∃ k data, batch !! k = Some data ∧ mkf (index + k)%nat data = None.
Proof.
  induction batch as [|data rest IH]; intros index w; simpl; [done|].
  destruct (mkf index data) as [t|] eqn:Hmk; simpl.
  - intros (k & data' & ? & ?)%IH. exists (S k), data'.
    by replace (index + S k)%nat with (S index + k)%nat by lia.
  - intros _. exists 0%nat, data. by rewrite Nat.add_0_r.
Qed.

Section Scheduler.

Variables (pageId totalCount : Z) (folderName : string) (offsetIndex : Z).
Variables (L : nat) (pageData : list json).
Variables (base n0 : nat).
Hypothesis L_pos : (0 < L)%nat.

Let mk := mk_task pageId totalCount folderName offsetIndex.

Local Abbreviation item_tasks := (item_tasks pageId totalCount folderName offsetIndex pageData n0).
Local Abbreviation sched_inv := (sched_inv L base n0).

Lemma sched_inv_deliver done e w : sched_inv done w → sched_inv done (deliver e w).
Proof.
  intros (Hbase & Hlog & Hbar & Hdone).
  destruct (deliver_trace e w) as (out & Htr & Hout).
  split_and!.
  - rewrite Htr, length_app. lia.
  - destruct e; simpl; [by apply dispatch_settled_logged|done..].
  - rewrite Htr. by apply barrier_app_nostart.
  - intros a d Ha Hd. destruct e; simpl in *; [|by eauto..].
    destruct (w_tasks w !! (n0 + a)%nat) as [d0|] eqn:Hd0.
    + destruct (dispatch_settled_mono id ev w _ d0 Hd0) as (d' & Hd' & ?); [by eauto|].
      congruence.
    + apply lookup_lt_Some in Hd. rewrite dispatch_length in Hd.
      apply lookup_ge_None in Hd0. lia.
Qed.

Lemma sched_inv_save done index t w :
  (∃ k, done = k * L)%nat → (index < L)%nat →
  length (w_tasks w) = (n0 + (done + index))%nat →
  sched_inv done w → sched_inv done (saveImageToFile t w).
Proof.
  intros [k ->] Hindex Hlen (Hbase & Hlog & Hbar & Hdone).
  assert (∀ a, (a `div` L < (k * L + index) `div` L)%nat →
    ∃ q', (base ≤ q' < length (w_trace w))%nat
          ∧ w_trace w !! q' = Some (Settled (n0 + a))) as Hearlier.
  { intros a Ha.
    rewrite Nat.div_add_l, (Nat.div_small index L), Nat.add_0_r in Ha by lia.
    assert (a < k * L)%nat as HaL.
    { pose proof (Nat.div_mod_eq a L). pose proof (Nat.mod_upper_bound a L). nia. }
    destruct (lookup_lt_is_Some_2 (w_tasks w) (n0 + a)) as [d Hd]; [lia|].
    destruct (Hlog (n0 + a)%nat d ltac:(lia) Hd (Hdone a d HaL Hd)) as (q & ? & Hq).
    exists q. split; [|done]. apply lookup_lt_Some in Hq. lia. }
  unfold saveImageToFile. rewrite Hlen.
  case_bool_decide; (split_and!; cbn [w_trace w_tasks w_fs]).
  - rewrite length_app. lia.
  - intros id d Hid Hd Hs. apply lookup_app_Some in Hd as [Hd|[Hge Hd]].
    + destruct (Hlog id d Hid Hd Hs) as (q & ? & ?). exists q.
      split; [done|]. by apply lookup_app_l_Some.
    + apply list_lookup_singleton_Some in Hd as [Hid0 <-].
      assert (id = n0 + (k * L + index))%nat as -> by lia.
      exists (length (w_trace w) + 2)%nat. split; [lia|]. cbn [w_trace].
      by rewrite lookup_app_r, Nat.add_comm, Nat.add_sub by lia.
  - apply barrier_app_start; [done|done|by repeat constructor].
  - intros a d Ha Hd. apply lookup_app_Some in Hd as [Hd|[Hge Hd]]; [by eauto|].
    rewrite Hlen in Hge. lia.
  - rewrite length_app. lia.
  - intros id d Hid Hd Hs. apply lookup_app_Some in Hd as [Hd|[Hge Hd]].
    + destruct (Hlog id d Hid Hd Hs) as (q & ? & ?). exists q.
      split; [done|]. by apply lookup_app_l_Some.
    + by apply list_lookup_singleton_Some in Hd as [Hid0 <-].
  - apply barrier_app_start; [done|done|by repeat constructor].
  - intros a d Ha Hd. apply lookup_app_Some in Hd as [Hd|[Hge Hd]]; [by eauto|].
    rewrite Hlen in Hge. lia.
Qed.

Lemma map_batch_inv mkf done batch : ∀ index w,
  (∃ k, done = k * L)%nat → (index + length batch ≤ L)%nat →
  length (w_tasks w) = (n0 + (done + index))%nat →
  sched_inv done w →
  sched_inv done (map_batch mkf index batch w).1.
Proof.
  induction batch as [|data rest IH]; intros index w Hk Hsz Hlen Hinv; simpl; [done|].
  simpl in Hsz. destruct (mkf index data) as [t|]; simpl; [|done].
  apply IH; [done|lia| |].
  - rewrite saveImageToFile_length, Hlen. lia.
  - eapply sched_inv_save; [done| |done|done]. lia.
Qed.

Lemma await_all_inv done n evs : ∀ w,
  sched_inv done w → sched_inv done (await_all n evs w).1.1.
Proof.
  induction evs as [|e evs IH]; intros w Hinv; simpl.
  - by destruct (all_settled n w).
  - destruct (all_settled n w); [done|]. by apply IH, sched_inv_deliver.
Qed.

Lemma mk_task_None i index data : mk i index data = None → item_path data = None.
Proof. unfold mk, mk_task. by destruct (item_path data). Qed.

Lemma item_tasks_eq w w' :
  map dl_task (w_tasks w') = map dl_task (w_tasks w) → item_tasks w → item_tasks w'.
Proof. unfold item_tasks. by intros ->. Qed.

Lemma item_tasks_batch i w w1 ts :
  length (w_tasks w) = (n0 + i)%nat →
  map dl_task (w_tasks w1) = map dl_task (w_tasks w) ++ ts →
  (∀ k t, ts !! k = Some t →
     ∃ data, slice i (i + L) pageData !! k = Some data ∧ mk i (0 + k)%nat data = Some t) →
  item_tasks w → item_tasks w1.
Proof.
  intros Hlen Heq Hts Hw j t. rewrite Heq.
  intros [Hj|[Hge Hj]]%lookup_app_Some; [by apply Hw|].
  rewrite length_map, Hlen in Hge, Hj.
  apply Hts in Hj as (data & [Hdata _]%slice_lookup & Hmk).
  exists data. replace (i + (n0 + j - (n0 + i)))%nat with j in Hdata by lia.
  split; [done|]. unfold mk in *. rewrite mk_task_shift in Hmk.
  by replace (i + (0 + (n0 + j - (n0 + i))))%nat with (0 + j)%nat in Hmk by lia.
Qed.

(** The loop over the batches, from the batch that starts at item [i]. *)
Lemma run_batches_inv fuel : ∀ i evs w,
  (∃ k, i = k * L)%nat → (length pageData ≤ fuel + i)%nat →
  length (w_tasks w) = (n0 + i `min` length pageData)%nat →
  item_tasks w → sched_inv (i `min` length pageData) w →
  let r := run_batches mk
             (map (λ i, (i, slice i (i + L) pageData))
                  (batch_starts fuel L (length pageData) i)) evs w in
  item_tasks r.1.2
  ∧ (∃ done, sched_inv done r.1.2)
  ∧ (r.1.1 = Completed →
       length (w_tasks r.1.2) = (n0 + length pageData)%nat
       ∧ sched_inv (length pageData) r.1.2)
  ∧ (r.1.1 = Completed ∨ r.1.1 = Stalled
     ∨ (r.1.1 = Rejected TypeError ∧ ∃ data, data ∈ pageData ∧ item_path data = None)).
Proof.
  induction fuel as [|fuel IH]; intros i evs w Hk Hfuel Hlen Hit Hinv; simpl.
  { rewrite Nat.min_r in Hlen, Hinv by lia. split_and!; eauto. }
  destruct (Nat.ltb_spec i (length pageData)) as [Hi|Hi]; simpl; cycle 1.
  { rewrite Nat.min_r in Hlen, Hinv by lia. split_and!; eauto. }
  rewrite Nat.min_l in Hlen, Hinv by lia.
  destruct (map_batch_tasks (mk i) (slice i (i + L) pageData) 0 w)
    as (ts & Hts & Hk_ts & Hts_len).
  pose proof (map_batch_inv (mk i) i (slice i (i + L) pageData) 0 w Hk) as Hinv1.
  pose proof (map_batch_false (mk i) (slice i (i + L) pageData) 0 w) as Hfalse.
  destruct (map_batch (mk i) 0 (slice i (i + L) pageData) w) as [w1 ok] eqn:Hmap.
  simpl in *.
  assert (sched_inv i w1) as Hs1.
  { apply Hinv1; [|by rewrite Nat.add_0_r|done]. rewrite slice_length. lia. }
  assert (item_tasks w1) as Hit1 by (by eapply item_tasks_batch).
  destruct ok; cycle 1.
  { simpl. split_and!; [done|by eauto|done|]. right. right. split; [done|].
    destruct Hfalse as (k & data & [Hd _]%slice_lookup & ?%mk_task_None); [done|].
    exists data. split; [|done]. by eapply list_elem_of_lookup_2. }
  assert (length (w_tasks w1) = (n0 + (i + L) `min` length pageData)%nat) as Hlen1.
  { rewrite <- (length_map dl_task), Hts, length_app, length_map, Hts_len, slice_length by done.
    lia. }
  pose proof (await_all_tasks (length (w_tasks w)) evs w1) as Htt.
  pose proof (await_all_inv i (length (w_tasks w)) evs w1 Hs1) as Hs2.
  pose proof (await_all_length (length (w_tasks w)) evs w1) as Hlen2.
  pose proof (await_all_settled (length (w_tasks w)) evs w1) as Hall.
  destruct (await_all (length (w_tasks w)) evs w1) as [[w2 evs2] s]. simpl in *.
  assert (item_tasks w2) as Hit2 by (by eapply item_tasks_eq).
  destruct s; cycle 1.
  { simpl. split_and!; [done|by eauto|done|by eauto]. }
  apply IH.
  - destruct Hk as [k ->]. exists (S k). lia.
  - lia.
  - lia.
  - done.
  - destruct Hs2 as (? & ? & ? & Hdone). split_and!; try done.
    intros a d Ha Hd. destruct (decide (a < i)%nat); [by eauto|].
    eapply all_settled_lookup; [by apply Hall| |done]. lia.
Qed.

End Scheduler.

(** With a positive batch size the loop over the batches ends. *)
Lemma download_batches_pos L pageId totalCount folderName offsetIndex pageData evs w :
  (0 < L)%nat →
  download_batches L pageId totalCount folderName offsetIndex pageData evs w
  = run_batches (mk_task pageId totalCount folderName offsetIndex)
                (batches L pageData) evs w.
Proof. intros HL. unfold download_batches. destruct L; [lia|done]. Qed.

(** With batch size 0 nothing is started. *)
Lemma download_batches_0 pageId totalCount folderName offsetIndex pageData evs w :
  (download_batches 0 pageId totalCount folderName offsetIndex pageData evs w).1.2 = w
  ∧ (download_batches 0 pageId totalCount folderName offsetIndex pageData evs w).2 = evs.
Proof. unfold download_batches. by destruct pageData. Qed.

(** The scheduler of one page, from any world. *)
Lemma download_batches_spec L pageId totalCount folderName offsetIndex pageData evs w :
  (0 < L)%nat →
  let r := download_batches L pageId totalCount folderName offsetIndex pageData evs w in
  let n0 := length (w_tasks w) in
  let base := length (w_trace w) in
  item_tasks pageId totalCount folderName offsetIndex pageData n0 r.1.2
  ∧ barrier base n0 L (w_trace r.1.2)
  ∧ (r.1.1 = Completed →
       length (w_tasks r.1.2) = (n0 + length pageData)%nat
       ∧ ∀ a d, w_tasks r.1.2 !! (n0 + a)%nat = Some d → dl_settled d = true)
  ∧ (r.1.1 = Completed ∨ r.1.1 = Stalled
     ∨ (r.1.1 = Rejected TypeError ∧ ∃ data, data ∈ pageData ∧ item_path data = None)).
Proof.
  intros HL r n0 base.
  assert (r = run_batches (mk_task pageId totalCount folderName offsetIndex)
                (batches L pageData) evs w) as Hr by (by apply download_batches_pos).
  unfold batches in Hr. clearbody r. subst r.
  destruct (run_batches_inv pageId totalCount folderName offsetIndex L pageData base n0 HL
              (length pageData) 0 evs w) as (Hit & [done Hinv] & Hc & Hout).
  - by exists 0%nat.
  - lia.
  - by rewrite Nat.min_0_l, Nat.add_0_r.
  - intros j t Hj. apply lookup_lt_Some in Hj. rewrite length_map in Hj.
    unfold n0 in Hj. lia.
  - rewrite Nat.min_0_l. split_and!.
    + done.
    + intros id d Hid Hd. apply lookup_lt_Some in Hd. unfold n0 in Hid. lia.
    + intros q a b Hq Hl. apply lookup_lt_Some in Hl. unfold base in Hq. lia.
    + intros a d Ha. lia.
  - split_and!; [done|by destruct Hinv as (_ & _ & ? & _)| |done].
    intros Hcomp. destruct (Hc Hcomp) as (Hlen & _ & _ & _ & Hdone).
    split; [done|]. intros a d Hd. eapply Hdone; [|done].
    apply lookup_lt_Some in Hd. lia.
Qed.

(** Starting a batch is synchronous: only start effects are traced, the
    filesystem is untouched and no download already in the table moves. *)
Lemma map_batch_sync mkf batch : ∀ index w,
  let w1 := (map_batch mkf index batch w).1 in
  w_fs w1 = w_fs w
  ∧ take (length (w_tasks w)) (w_tasks w1) = w_tasks w
  ∧ (∃ out, w_trace w1 = w_trace w ++ out
          ∧ Forall (λ o, is_start_obs o = true) out
          ∧ ((map_batch mkf index batch w).2 = true →
             filter (λ o, is_Started o = true) out
             = map Started (seq (length (w_tasks w)) (length batch)))).
Proof.
  induction batch as [|data rest IH]; intros index w; simpl.
  - split_and!; [done|by rewrite take_ge|]. exists []. by rewrite app_nil_r.
  - destruct (mkf index data) as [t|]; simpl; cycle 1.
    { split_and!; [done|by rewrite take_ge|]. exists []. by rewrite app_nil_r. }
    destruct (IH (S index) (saveImageToFile t w)) as (Hfs & Htk & out & Htr & Hout & Hst).
    rewrite saveImageToFile_length in Htk, Hst.
    assert (w_fs (saveImageToFile t w) = w_fs w) as Hfs0.
    { unfold saveImageToFile. by case_bool_decide. }
    assert (∃ o1, w_trace (saveImageToFile t w)
                  = w_trace w ++ Started (length (w_tasks w)) :: o1
                ∧ Forall (λ o, is_start_obs o = true) o1
                ∧ filter (λ o, is_Started o = true) o1 = []
                ∧ ∃ d, w_tasks (saveImageToFile t w) = w_tasks w ++ [d]) as
      (o1 & Htr0 & Ho1 & Hf1 & d & Htk0).
    { unfold saveImageToFile. case_bool_decide; simpl; eexists.
      - split_and!; [done|by repeat constructor|done|by eexists].
      - split_and!; [done|by repeat constructor|done|by eexists]. }
    split_and!.
    + by rewrite Hfs.
    + rewrite Htk0 in Htk.
      apply (f_equal (take (length (w_tasks w)))) in Htk.
      rewrite take_take, Nat.min_l in Htk by lia.
      rewrite Htk. by rewrite take_app_length.
    + exists (Started (length (w_tasks w)) :: o1 ++ out). split_and!.
      * by rewrite Htr, Htr0, <- app_assoc.
      * constructor; [done|]. by apply Forall_app.
      * intros Hok. rewrite filter_cons_True by done.
        rewrite filter_app, Hf1, Hst by done. done.
Qed.



(** ** Theorems *)


(** ** Invariants of every step *)

(** A property of the world kept by starting a task and by delivering a
    callback is kept by the whole scheduler. *)
Lemma run_batches_preserves (I : world → Prop) mk :
  (∀ t w, I w → I (saveImageToFile t w)) →
  (∀ e w, I w → I (deliver e w)) →
  ∀ bs evs w, I w → I (run_batches mk bs evs w).1.2.
Proof.
  intros Hsave Hdel.
  assert (∀ mkf batch index w, I w → I (map_batch mkf index batch w).1) as Hmap.
  { induction batch as [|data rest IH]; intros index w Hw; simpl; [done|].
    destruct (mkf index data); simpl; [|done]. by apply IH, Hsave. }
  assert (∀ n evs w, I w → I (await_all n evs w).1.1) as Hawait.
  { induction evs as [|e evs IH]; intros w Hw; simpl.
    - by destruct (all_settled n w).
    - destruct (all_settled n w); [done|]. by apply IH, Hdel. }
  induction bs as [|[i batch] bs IH]; intros evs w Hw; simpl; [done|].
  pose proof (Hmap (mk i) batch 0%nat w Hw) as H1.
  destruct (map_batch (mk i) 0 batch w) as [w1 []]; simpl in *; [|done].
  pose proof (Hawait (length (w_tasks w)) evs w1 H1) as H2.
  destruct (await_all (length (w_tasks w)) evs w1) as [[w2 evs2] []]; simpl in *; [|done].
  by apply IH.
Qed.

Lemma download_batches_preserves (I : world → Prop) L pageId totalCount folderName
    offsetIndex pageData :
  (∀ t w, I w → I (saveImageToFile t w)) →
  (∀ e w, I w → I (deliver e w)) →
  ∀ evs w, I w →
    I (download_batches L pageId totalCount folderName offsetIndex pageData evs w).1.2.
Proof.
  intros Hsave Hdel evs w Hw. unfold download_batches.
  destruct L as [|L]; [destruct pageData as [|data pageData]; [|done]|];
    by apply run_batches_preserves.
Qed.

Lemma handle_skipped id ev t fs : handle id ev (dl_skipped t) fs = (dl_skipped t, fs, []).
Proof. done. Qed.

Lemma handle_fs_keeps P id ev d fs :
  P ⊆ fs → file_path (dl_task d) ∉ P → P ⊆ (handle id ev d fs).1.2.
Proof. intros HP Hd. handle_cases d ev; set_solver. Qed.

Lemma resolve_out_net id v d o :
  o ∈ (resolve id v d).2 →
  (∀ i url, o ≠ HttpsGet i url) ∧ (∀ i p, o ≠ CreateWriteStream i p).
Proof.
  unfold resolve. destruct (dl_img_response d); simpl; [by intros ?%elem_of_nil|].
  destruct v; simpl; rewrite ?elem_of_cons, ?elem_of_nil; intros H; by destruct_or!; subst.
Qed.

(** A callback issues no request, and opens a write stream only for its
    own download, whose request was issued. *)
Lemma handle_out_net id ev d fs o :
  o ∈ (handle id ev d fs).2 →
  (∀ i url, o ≠ HttpsGet i url)
  ∧ (∀ i p, o = CreateWriteStream i p → i = id ∧ dl_requested d = true).
Proof.
  handle_cases d ev; intros H;
    repeat (apply elem_of_cons in H as [->|H]);
    try (by apply elem_of_nil in H);
    try (apply resolve_out_net in H as [? Hc]; split; [done|];
         intros i p ->; by destruct (Hc i p));
    (split; [done|]; intros i p [=]; by subst).
Qed.

Lemma keeps_save P t w : keeps P w → keeps P (saveImageToFile t w).
Proof.
  intros (HP & Hsk & Hnet). unfold saveImageToFile.
  case_bool_decide as Hex; (split_and!; cbn [w_fs w_tasks w_trace]; [done| |]).
  - intros id d [Hd|[_ Hd]]%lookup_app_Some; [by eauto|].
    by apply list_lookup_singleton_Some in Hd as [_ <-].
  - intros id Hid.
    assert ((∃ url, HttpsGet id url ∈ w_trace w)
            ∨ (∃ p, CreateWriteStream id p ∈ w_trace w)) as Hold.
    { destruct Hid as [[url Hu]|[p Hp]]; [left; exists url|right; exists p].
      - apply elem_of_app in Hu as [Hu|Hu]; [done|].
        repeat (apply elem_of_cons in Hu as [Hu|Hu]; [by simplify_eq|]).
        by apply elem_of_nil in Hu.
      - apply elem_of_app in Hp as [Hp|Hp]; [done|].
        repeat (apply elem_of_cons in Hp as [Hp|Hp]; [by simplify_eq|]).
        by apply elem_of_nil in Hp. }
    destruct (Hnet id Hold) as (d & Hd & ?). exists d. split; [|done].
    by apply lookup_app_l_Some.
  - intros id d [Hd|[_ Hd]]%lookup_app_Some; [by eauto|].
    apply list_lookup_singleton_Some in Hd as [_ <-]. simpl. set_solver.
  - intros id Hid.
    destruct (decide (id = length (w_tasks w))) as [->|Hne].
    { exists (dl_requesting t). split; [|done]. by rewrite lookup_app_r, Nat.sub_diag. }
    assert ((∃ url, HttpsGet id url ∈ w_trace w)
            ∨ (∃ p, CreateWriteStream id p ∈ w_trace w)) as Hold.
    { destruct Hid as [[url Hu]|[p Hp]]; [left; exists url|right; exists p].
      - apply elem_of_app in Hu as [Hu|Hu]; [done|].
        repeat (apply elem_of_cons in Hu as [Hu|Hu]; [by simplify_eq|]).
        by apply elem_of_nil in Hu.
      - apply elem_of_app in Hp as [Hp|Hp]; [done|].
        repeat (apply elem_of_cons in Hp as [Hp|Hp]; [by simplify_eq|]).
        by apply elem_of_nil in Hp. }
    destruct (Hnet id Hold) as (d & Hd & ?). exists d. split; [|done].
    by apply lookup_app_l_Some.
Qed.

Lemma keeps_dispatch P id ev w : keeps P w → keeps P (dispatch id ev w).
Proof.
  intros (HP & Hsk & Hnet).
  destruct (w_tasks w !! id) as [d|] eqn:Hd; [|by rewrite dispatch_none].
  destruct (dispatch_same id ev w d Hd) as (Hl & Htr & Hfs).
  destruct (decide (file_path (dl_task d) ∈ P)) as [Hin|Hnin].
  { rewrite (Hsk id d Hd Hin) in Hl, Htr, Hfs. rewrite handle_skipped in *. simpl in *.
    unfold dispatch. rewrite Hd, (Hsk id d Hd Hin), handle_skipped.
    rewrite <- (Hsk id d Hd Hin), list_insert_id, app_nil_r by done.
    by destruct w. }
  split_and!.
  - rewrite Hfs. by apply handle_fs_keeps.
  - intros id' d' Hd' Hin'. destruct (decide (id = id')) as [<-|Hne].
    + rewrite Hl in Hd'. injection Hd' as <-. by rewrite handle_task in Hin'.
    + rewrite dispatch_other in Hd' by done. by eauto.
  - intros id' Hid'. rewrite Htr in Hid'.
    assert (((∃ url, HttpsGet id' url ∈ w_trace w)
             ∨ (∃ p, CreateWriteStream id' p ∈ w_trace w))
            ∨ (id' = id ∧ dl_requested d = true)) as [Hold|[-> Hreq]].
    { destruct Hid' as [[url [Hu|Hu]%elem_of_app]|[p [Hp|Hp]%elem_of_app]];
        [left; left; by exists url| |left; right; by exists p|].
      - apply handle_out_net in Hu as [Hu _]. by destruct (Hu id' url).
      - apply handle_out_net in Hp as [_ Hp]. right. by apply (Hp id' p). }
    + destruct (Hnet id' Hold) as (d0 & Hd0 & Hr0).
      destruct (decide (id = id')) as [<-|Hne].
      * eexists. split; [done|]. rewrite handle_requested. congruence.
      * exists d0. by rewrite dispatch_other.
    + eexists. split; [done|]. by rewrite handle_requested.
Qed.

Lemma keeps_deliver P e w : keeps P w → keeps P (deliver e w).
Proof. destruct e; simpl; auto using keeps_dispatch. Qed.

(** C3. A task whose destination path exists makes no request and opens no
    file: [saveImageToFile] only prints the "already exists" line and its
    promise is fulfilled at once, with no error and no failure line, and no
    later callback does anything for it.  Hence, when the same page is
    downloaded a second time into the directory the first run left, every
    task whose file is present after the first run is skipped in the second
    run: no request and no write are ever made for it, and its file is still
    there at the end. *)
Theorem skip_if_exists :
  (∀ t w, file_path t ∈ w_fs w →
     saveImageToFile t w
     = World (w_fs w) (w_tasks w ++ [dl_skipped t])
             (w_trace w ++ [Started (length (w_tasks w));
                            ConsoleLogExists (split_pop (file_path t))
                                             (current_image t) (total_images t);
                            Settled (length (w_tasks w))])
     ∧ dl_settled (dl_skipped t) = true
     ∧ ∀ id ev fs, handle id ev (dl_skipped t) fs = (dl_skipped t, fs, []))
  ∧ (∀ L pageId totalCount folderName offsetIndex pageData evs1 evs2 w0,
       let w1 := (download_batches L pageId totalCount folderName offsetIndex
                    pageData evs1 w0).1.2 in
       let w2 := (download_batches L pageId totalCount folderName offsetIndex
                    pageData evs2 (World (w_fs w1) [] [])).1.2 in
       ∀ id d, w_tasks w2 !! id = Some d → file_path (dl_task d) ∈ w_fs w1 →
         d = dl_skipped (dl_task d)
         ∧ (∀ url, HttpsGet id url ∉ w_trace w2)
         ∧ (∀ p, CreateWriteStream id p ∉ w_trace w2)
         ∧ file_path (dl_task d) ∈ w_fs w2).
Proof.
  split.
  - intros t w Hex. split_and!; [|done|done].
    unfold saveImageToFile. by rewrite bool_decide_eq_true_2.
  - intros L pageId totalCount folderName offsetIndex pageData evs1 evs2 w0 w1 w2 id d Hd Hin.
    assert (keeps (w_fs w1) w2) as (HP & Hsk & Hnet).
    { unfold w2.
      apply (download_batches_preserves (keeps (w_fs w1))); auto using keeps_save, keeps_deliver.
      split_and!; simpl; [done|intros ?? H; by rewrite lookup_nil in H|].
      intros ? [[? H]|[? H]]; by apply elem_of_nil in H. }
    pose proof (Hsk id d Hd Hin) as Hskip.
    split_and!; [done| | |by apply HP].
    + intros url Hu. destruct (Hnet id) as (d' & Hd' & Hr); [by eauto|].
      rewrite Hd in Hd'. injection Hd' as <-. by rewrite Hskip in Hr.
    + intros p Hp. destruct (Hnet id) as (d' & Hd' & Hr); [by eauto|].
      rewrite Hd in Hd'. injection Hd' as <-. by rewrite Hskip in Hr.
Qed.

(** ** Failures of one download *)

(** The two handlers that clean up: the body timer and the writer's
    'error'.  Each ends the writer, unlinks the destination and only then
    calls [onError], which logs the error and resolves the promise to
    [false].  A download that was pending is thereby settled as failed; one
    whose promise was already resolved keeps its result (a second [resolve]
    is ignored), so a writer error after 'finish' removes the file of a
    download that stays reported as successful. *)
Lemma cleanup_on_timer_and_writer_error id d fs ev :
  dl_requested d = true →
  ((ev = TimerFire ∧ dl_timer d = true)
   ∨ (∃ m, ev = WriterError m ∧ dl_streaming d = true)) →
  let r := handle id ev d fs in
  (file_path (dl_task d) ∉ r.1.2)
  ∧ dl_writer_open r.1.1 = false
  ∧ dl_settled r.1.1 = true
  ∧ dl_img_response r.1.1 = Some (default false (dl_img_response d))
  ∧ (dl_img_response d = None → Settled id ∈ r.2)
  ∧ (∃ message, ConsoleError (file_path (dl_task d)) message ∈ r.2)
  ∧ WriterEnd id ∈ r.2
  ∧ Unlink id (file_path (dl_task d)) ∈ r.2.
Proof.
  intros Hreq [[-> Ht]|[m [-> Hs]]]; unfold handle; rewrite Hreq; simpl;
    rewrite ?Ht, ?Hs;
    rewrite (surjective_pairing (onError _ _ _)), onError_fst, onError_snd; simpl.
  - split_and!; [|  |by apply resolve_settled| | | | |].
    + intros [_ H]%elem_of_difference. apply H. by apply elem_of_singleton.
    + unfold resolve. simpl. by destruct (dl_img_response d).
    + unfold resolve. simpl. destruct (dl_img_response d) eqn:E; simpl; by rewrite ?E.
    + intros Hnone. unfold resolve. simpl. rewrite Hnone. simpl.
      repeat first [apply list_elem_of_here | apply list_elem_of_further].
    + eexists. repeat first [apply list_elem_of_here | apply list_elem_of_further].
    + by apply list_elem_of_further, list_elem_of_here.
    + by do 2 apply list_elem_of_further; apply list_elem_of_here.
  - split_and!; [|  |by apply resolve_settled| | | | |].
    + intros [_ H]%elem_of_difference. apply H. by apply elem_of_singleton.
    + unfold resolve. simpl. by destruct (dl_img_response d).
    + unfold resolve. simpl. destruct (dl_img_response d) eqn:E; simpl; by rewrite ?E.
    + intros Hnone. unfold resolve. simpl. rewrite Hnone. simpl.
      repeat first [apply list_elem_of_here | apply list_elem_of_further].
    + eexists. repeat first [apply list_elem_of_here | apply list_elem_of_further].
    + by apply list_elem_of_further, list_elem_of_here.
    + by do 2 apply list_elem_of_further; apply list_elem_of_here.
Qed.

(** C4 (evaluation at the failing input).  A download whose response is
    200 opens its destination, receives a chunk, and then the request emits
    'error' (the connection is reset in mid-body): the shared [onError]
    handler reports the failure and settles the task, but the writer is not
    ended and the file is not unlinked, so the partial file is still there
    when the task settles.  Only the body timer, if it fires afterwards,
    removes it. *)
Theorem partial_file_left_by_request_error :
  let t := Task "https://w.wallhaven.cc/full/ab/wallhaven-ab12cd.jpg"
                "Wallpapers/wallhaven-ab12cd.jpg" 1 24 in
  let evs := [DlEvent 0 (Response 200 (Some "10")); DlEvent 0 (Data 4);
              DlEvent 0 (ReqError "read ECONNRESET")] in
  let w := deliver_all evs (saveImageToFile t (World ∅ [] [])) in
  (∃ d, w_tasks w !! 0%nat = Some d
        ∧ dl_img_response d = Some false ∧ dl_settled d = true
        ∧ dl_writer_open d = true ∧ dl_timer d = true)
  ∧ file_path t ∈ w_fs w
  ∧ w_trace w
    = [Started 0; HttpsGet 0 (image_url t);
       CreateWriteStream 0 (file_path t); SetTimeout 0;
       StdoutWrite "wallhaven-ab12cd.jpg" (JSNum.of_Z 40) 1 24 false;
       ConsoleError (file_path t) "read ECONNRESET";
       ConsoleLogFailed "wallhaven-ab12cd.jpg" 1 24; Settled 0]
  ∧ file_path t ∉ w_fs (deliver (DlEvent 0 TimerFire) w).
Proof.
  split_and!.
  - eexists. split; [vm_compute; reflexivity|]. by vm_compute.
  - compute_done.
  - by vm_compute.
  - compute_done.
Qed.

(** ** Per-file errors stay inside the task *)





(** ** A response that is not 200 *)

(** A download whose status-200 branch has not run: no writer, no timer,
    and it can only have failed. *)
Lemma handle_not_streaming id ev d fs :
  dl_streaming d = false → dl_timer d = false → dl_writer_open d = false →
  (dl_img_response d = None ∨ dl_img_response d = Some false) →
  (dl_responded d = true ∨ ∀ h, ev ≠ Response 200 h) →
  let r := handle id ev d fs in
  r.1.2 = fs
  ∧ dl_streaming r.1.1 = false ∧ dl_timer r.1.1 = false ∧ dl_writer_open r.1.1 = false
  ∧ (dl_img_response r.1.1 = None ∨ dl_img_response r.1.1 = Some false)
  ∧ (dl_img_response d = Some false → dl_img_response r.1.1 = Some false)
  ∧ (dl_responded d = true → dl_responded r.1.1 = true)
  ∧ ((∀ s h, ev ≠ Response s h) → dl_responded r.1.1 = dl_responded d)
  ∧ (∀ p, CreateWriteStream id p ∉ r.2)
  ∧ (∀ s h, ev = Response s h → dl_requested d = true → dl_responded d = false →
       dl_responded r.1.1 = true ∧ dl_img_response r.1.1 = Some false
       ∧ ConsoleError (file_path (dl_task d)) ("Failed to download image: " +:+ pretty s)
         ∈ r.2).
Proof.
  destruct d as [t rq ir rs st wo tm dn tot]; simpl.
  intros -> -> -> Hir Hresp.
  assert (∀ (l : list obs) p, Forall (λ o, ∀ i q, o ≠ CreateWriteStream i q) l →
            CreateWriteStream id p ∉ l) as Hno.
  { intros l p Hl Hin. rewrite Forall_forall in Hl. by eapply Hl. }
  destruct rq; unfold handle, onError, resolve; simpl.
  2:{ split_and!; try done; auto. }
  destruct ev; simpl;
    try (destruct rs; simpl);
    try (destruct (Z.eqb_spec statusCode 200) as [->|?]; simpl);
    try (destruct Hresp as [?|Hresp]; [done|by destruct (Hresp content_length)]);
    destruct Hir as [-> | ->]; simpl;
    (split_and!; try done; auto;
     try (intros p; apply Hno; by repeat constructor);
     try (intros H; by destruct (H _ _ eq_refl));
     try (intros ?? [= <- <-] _ _; split_and!; try done; apply list_elem_of_here)).
Qed.

Lemma drop_app_elem {A} (l out : list A) base x :
  (base ≤ length l)%nat →
  x ∈ drop base (l ++ out) ↔ x ∈ drop base l ∨ x ∈ out.
Proof. intros Hb. by rewrite drop_app_le, elem_of_app by done. Qed.

Lemma quiet_deliver base fs0 t id resp e w :
  (resp = true ∨ ∀ s h, e ≠ DlEvent id (Response s h)) →
  quiet base fs0 t id resp w → quiet base fs0 t id resp (deliver e w).
Proof.
  intros He Hq. destruct e as [id' ev| |]; simpl; [|done..].
  pose proof Hq as Hq0.
  destruct Hq as ((d & Hd & Ht & Hreq & Hst & Htm & Hwo & Hresp & Hir) & Hbase & Hcws & Hfs).
  destruct (decide (id' = id)) as [->|Hne].
  - destruct (dispatch_same id ev w d Hd) as (Hl & Htr & Hfs').
    destruct (handle_not_streaming id ev d (w_fs w) Hst Htm Hwo) as
      (Hf & ? & ? & ? & Hir' & Hir2 & Hr1 & Hr2 & Hno & _).
    { destruct Hir as [?|[_ ?]]; auto. }
    { destruct He as [->|He]; [by left|]. right. intros h ->. by eapply He. }
    split_and!.
    + eexists. split; [done|]. rewrite handle_task, handle_requested.
      split_and!; try done.
      * destruct He as [->|He]; [rewrite Hr1; congruence|].
        rewrite Hr2; [done|]. intros s h ->. by eapply He.
      * destruct Hir as [?|[-> ?]]; [left; auto|].
        destruct Hir' as [?|?]; [by right|by left].
    + rewrite Htr, length_app. lia.
    + intros p. rewrite Htr, drop_app_elem by done. intros [?|?]; [by eapply Hcws|by eapply Hno].
    + rewrite dispatch_length, Hfs'. intros ?. rewrite Hf. auto.
  - destruct (w_tasks w !! id') as [d'|] eqn:Hd'; [|by rewrite dispatch_none].
    destruct (dispatch_same id' ev w d' Hd') as (_ & Htr & _).
    split_and!.
    + exists d. by rewrite dispatch_other.
    + rewrite Htr, length_app. lia.
    + intros p. rewrite Htr, drop_app_elem by done. intros [?|Hin]; [by eapply Hcws|].
      apply handle_out_net in Hin as [_ Hin]. by destruct (Hin id p).
    + rewrite dispatch_length. intros Hone.
      apply lookup_lt_Some in Hd, Hd'. lia.
Qed.

Lemma quiet_response base fs0 t id s h w :
  s ≠ 200 → quiet base fs0 t id false w →
  quiet base fs0 t id true (deliver (DlEvent id (Response s h)) w)
  ∧ ConsoleError (file_path t) ("Failed to download image: " +:+ pretty s)
    ∈ drop base (w_trace (deliver (DlEvent id (Response s h)) w)).
Proof.
  intros Hs ((d & Hd & Ht & Hreq & Hst & Htm & Hwo & Hresp & Hir) & Hbase & Hcws & Hfs).
  simpl. destruct (dispatch_same id (Response s h) w d Hd) as (Hl & Htr & Hfs').
  destruct (handle_not_streaming id (Response s h) d (w_fs w) Hst Htm Hwo) as
    (Hf & ? & ? & ? & _ & _ & _ & _ & Hno & Hrsp).
  { destruct Hir as [?|[_ ?]]; auto. }
  { right. intros h' [= ? ?]. done. }
  destruct (Hrsp s h eq_refl Hreq Hresp) as (Hr' & Hi' & Hlog).
  split; [split_and!|].
  - eexists. split; [done|]. rewrite handle_task, handle_requested. split_and!; auto.
  - rewrite Htr, length_app. lia.
  - intros p. rewrite Htr, drop_app_elem by done. intros [?|?]; [by eapply Hcws|by eapply Hno].
  - rewrite dispatch_length, Hfs'. intros ?. rewrite Hf. auto.
  - rewrite Htr, drop_app_elem by done. right. by rewrite <- Ht.
Qed.

Lemma deliver_keeps_trace base e w o :
  (base ≤ length (w_trace w))%nat →
  o ∈ drop base (w_trace w) → o ∈ drop base (w_trace (deliver e w)).
Proof.
  intros Hb Ho. destruct (deliver_trace e w) as (out & -> & _).
  rewrite drop_app_elem by done. by left.
Qed.

Lemma quiet_deliver_all base fs0 t id resp evs : ∀ w,
  (resp = true ∨ ∀ s h, DlEvent id (Response s h) ∉ evs) →
  quiet base fs0 t id resp w → quiet base fs0 t id resp (deliver_all evs w).
Proof.
  induction evs as [|e evs IH]; intros w He Hq; simpl; [done|].
  apply IH.
  - destruct He as [?|He]; [by left|right]. intros s h Hin. eapply He.
    by apply list_elem_of_further.
  - apply quiet_deliver; [|done]. destruct He as [?|He]; [by left|right].
    intros s h ->. eapply He. apply list_elem_of_here.
Qed.

Lemma deliver_all_keeps_trace base evs o : ∀ w,
  (base ≤ length (w_trace w))%nat →
  o ∈ drop base (w_trace w) → o ∈ drop base (w_trace (deliver_all evs w)).
Proof.
  induction evs as [|e evs IH]; intros w Hb Ho; simpl; [done|].
  apply IH; [|by apply deliver_keeps_trace].
  destruct (deliver_trace e w) as (out & -> & _). rewrite length_app. lia.
Qed.

(** C6. A download whose response has a status other than 200 fails with
    an error that carries the status code, and no file is ever created for
    it: whatever callbacks come before the response (none of them a
    response) and after it, the error "Failed to download image: <status>"
    is printed with the destination path, the awaited promise is resolved
    to [false], the download never opens a write stream, and when it is the
    only download the filesystem is left as it was. *)
Theorem non_200_creates_no_file t w pre s h post :
  file_path t ∉ w_fs w →
  s ≠ 200 →
  let id := length (w_tasks w) in
  (∀ s' h', DlEvent id (Response s' h') ∉ pre) →
  let w' := deliver_all (pre ++ DlEvent id (Response s h) :: post) (saveImageToFile t w) in
  ConsoleError (file_path t) ("Failed to download image: " +:+ pretty s) ∈ new_trace w w'
  ∧ (∃ d, w_tasks w' !! id = Some d ∧ dl_task d = t
          ∧ dl_img_response d = Some false
          ∧ dl_streaming d = false ∧ dl_writer_open d = false)
  ∧ (∀ p, CreateWriteStream id p ∉ new_trace w w')
  ∧ (w_tasks w = [] → w_fs w' = w_fs w).
Proof.
  intros Hfresh Hs id Hpre w'. unfold new_trace.
  set (base := length (w_trace w)). set (w1 := saveImageToFile t w).
  assert (quiet base (w_fs w) t id false w1) as Hq1.
  { unfold w1, saveImageToFile. rewrite bool_decide_eq_false_2 by done.
    split_and!; cbn [w_tasks w_trace w_fs].
    - exists (dl_requesting t). split_and!; try done; [|by right].
      by rewrite lookup_app_r, Nat.sub_diag.
    - rewrite length_app. unfold base. lia.
    - intros p. unfold base. rewrite drop_app_length.
      rewrite !elem_of_cons, elem_of_nil. intros [?|[?|?]]; done.
    - done. }
  unfold w', deliver_all. rewrite foldl_app. simpl.
  fold (deliver_all pre w1).
  set (w2 := deliver_all pre w1).
  fold (deliver_all post (deliver (DlEvent id (Response s h)) w2)).
  assert (quiet base (w_fs w) t id false w2) as Hq2.
  { apply quiet_deliver_all; [by right|done]. }
  destruct (quiet_response base (w_fs w) t id s h w2 Hs Hq2) as (Hq3 & Hlog).
  assert (quiet base (w_fs w) t id true
            (deliver_all post (deliver (DlEvent id (Response s h)) w2))) as Hq4.
  { apply quiet_deliver_all; [by left|done]. }
  destruct Hq4 as ((d & Hd & Ht & _ & Hst & _ & Hwo & _ & Hir) & _ & Hcws & Hfs).
  split_and!.
  - apply deliver_all_keeps_trace; [|done]. by destruct Hq3 as (_ & ? & _).
  - exists d. split_and!; try done. by destruct Hir as [?|[? _]].
  - done.
  - intros Hnil. apply Hfs. apply lookup_lt_Some in Hd.
    assert (length (w_tasks w1) = 1%nat) as H1.
    { unfold w1. by rewrite saveImageToFile_length, Hnil. }
    clear -H1. revert H1. unfold w2.
    assert (∀ evs w0, length (w_tasks (deliver_all evs w0)) = length (w_tasks w0)) as Hlen.
    { induction evs as [|e evs IH]; intros w0; simpl; [done|].
      by rewrite IH, deliver_length. }
    intros. by rewrite Hlen, deliver_length, Hlen.
Qed.

(** ** The progress line *)

Lemma data_lines id lens : ∀ w d,
  w_tasks w !! id = Some d → dl_requested d = true → dl_streaming d = true →
  w_trace (deliver_all (map (λ n, DlEvent id (Data n)) lens) w)
  = w_trace w
    ++ map (λ k, StdoutWrite (split_pop (file_path (dl_task d)))
                   (progress (dl_downloaded d + sum_Z (take (S k) lens)) (dl_total d))
                   (current_image (dl_task d)) (total_images (dl_task d)) false)
           (seq 0 (length lens)).
Proof.
  induction lens as [|n lens IH]; intros w d Hd Hreq Hst; simpl.
  { by rewrite app_nil_r. }
  destruct (dispatch_same id (Data n) w d Hd) as (Hl & Htr & _).
  unfold handle in Hl, Htr. rewrite Hreq, Hst in Hl, Htr. simpl in Hl, Htr.
  fold (deliver_all (map (λ n, DlEvent id (Data n)) lens) (dispatch id (Data n) w)).
  rewrite (IH _ _ Hl) by done. rewrite Htr. simpl.
  rewrite <- app_assoc. simpl. rewrite Z.add_0_r. do 2 f_equal.
  rewrite <- fmap_S_seq, <- list_fmap_compose. apply list_fmap_ext.
  intros k ? _. simpl. do 2 f_equal. lia.
Qed.

Lemma progress_NaN downloaded : progress downloaded JSNum.NaN = JSNum.NaN.
Proof.
  unfold progress, JSNum.div. generalize (JSNum.of_Z downloaded).
  by intros [| | |].
Qed.

(** The percentage is an integral Number (NaN and -Infinity apart), it is
    capped at 100, and it is exactly 100 once the announced length has
    arrived. *)
Lemma progress_integer downloaded total :
  progress downloaded total = JSNum.NaN
  ∨ progress downloaded total = S754_infinity true
  ∨ JSNum.is_integer (progress downloaded total) = true.
Proof.
  unfold progress, JSNum.Math_min.
  set (x := JSNum.Math_round _).
  destruct (JSNumFacts.Math_round_cases
              (JSNum.mul (JSNum.div (JSNum.of_Z downloaded) total) (JSNum.of_Z 100)))
    as [Hx|[[s Hx]|Hx]]; fold x in Hx.
  - left. by rewrite Hx.
  - rewrite Hx. destruct s; [by right; left|by right; right].
  - destruct (SFcompare x (JSNum.of_Z 100)) as [[| |]|]; [|by right; right|by right; right|by left].
    destruct x as [[|]| | |]; by right; right.
Qed.

Lemma progress_capped downloaded total :
  progress downloaded total = JSNum.NaN
  ∨ SFcompare (progress downloaded total) (JSNum.of_Z 100) = Some Lt
  ∨ progress downloaded total = JSNum.of_Z 100.
Proof.
  unfold progress, JSNum.Math_min.
  set (x := JSNum.Math_round _).
  destruct (SFcompare x (JSNum.of_Z 100)) as [[| |]|] eqn:Hc.
  - destruct x as [[|]| | |]; by (right; right).
  - by right; left.
  - by right; right.
  - by left.
Qed.

Lemma progress_complete total :
  0 < total → JSNum.safe total → progress total (JSNum.of_Z total) = JSNum.of_Z 100.
Proof.
  intros Hp Hs. unfold progress. rewrite JSNumFacts.div_self by (done || lia). done.
Qed.

(** C8, amended.  After a 200 response, the 'data' listener adds each
    chunk's length to the byte count and rewrites the status line with the
    percentage and the current/total counters.  The percentage is
    [Math.min(Math.round(bytesDownloaded / contentLength * 100), 100)]
    evaluated in binary64: it is an integral Number (or NaN, or -Infinity
    when the length is -0), never above 100, and exactly 100 when
    [bytesDownloaded] equals a positive [contentLength]; it is not always
    the exactly rounded quotient (see the counterexample).  When the
    content-length header is absent (or has no leading digits) the length
    is NaN, and so is every percentage (not the last known one), while the
    line is still rewritten with the counters at each chunk. *)
Theorem progress_percent t w h lens :
  file_path t ∉ w_fs w →
  let id := length (w_tasks w) in
  let w1 := saveImageToFile t w in
  let w' := deliver_all (DlEvent id (Response 200 h)
                         :: map (λ n, DlEvent id (Data n)) lens) w1 in
  let contentLength := JSNum.parseInt h in
  new_trace w1 w'
  = CreateWriteStream id (file_path t) :: SetTimeout id
    :: map (λ k,
         let bytesDownloaded := sum_Z (take (S k) lens) in
         StdoutWrite (split_pop (file_path t))
           (progress bytesDownloaded contentLength)
           (current_image t) (total_images t) false)
       (seq 0 (length lens))
  ∧ (∀ bytesDownloaded,
       let percent := progress bytesDownloaded contentLength in
       (percent = JSNum.NaN ∨ percent = S754_infinity true
        ∨ JSNum.is_integer percent = true)
       ∧ (percent = JSNum.NaN ∨ SFcompare percent (JSNum.of_Z 100) = Some Lt
          ∨ percent = JSNum.of_Z 100))
  ∧ (∀ total, 0 < total → JSNum.safe total → contentLength = JSNum.of_Z total →
       progress total contentLength = JSNum.of_Z 100)
  ∧ JSNum.parseInt None = JSNum.NaN
  ∧ (contentLength = JSNum.NaN →
     new_trace w1 w'
     = CreateWriteStream id (file_path t) :: SetTimeout id
       :: replicate (length lens)
            (StdoutWrite (split_pop (file_path t)) JSNum.NaN
                         (current_image t) (total_images t) false)).
Proof.
  intros Hfresh id w1 w' contentLength.
  assert (w_tasks w1 !! id = Some (dl_requesting t)) as Hd1.
  { unfold w1, saveImageToFile. rewrite bool_decide_eq_false_2 by done. simpl.
    by rewrite lookup_app_r, Nat.sub_diag. }
  destruct (dispatch_same id (Response 200 h) w1 _ Hd1) as (Hl & Htr & _).
  simpl in Hl, Htr.
  assert (new_trace w1 w'
          = CreateWriteStream id (file_path t) :: SetTimeout id
            :: map (λ k, StdoutWrite (split_pop (file_path t))
                           (progress (sum_Z (take (S k) lens)) contentLength)
                           (current_image t) (total_images t) false)
                   (seq 0 (length lens))) as Heq.
  { unfold new_trace, w'. simpl.
    fold (deliver_all (map (λ n, DlEvent id (Data n)) lens)
                      (dispatch id (Response 200 h) w1)).
    rewrite (data_lines id lens _ _ Hl) by done. rewrite Htr. simpl.
    rewrite <- app_assoc. by rewrite drop_app_length. }
  split_and!; [done| | |done|].
  - intros bytesDownloaded percent. split; [apply progress_integer|apply progress_capped].
  - intros total Hp Hs ->. by apply progress_complete.
  - intros Hnan. rewrite Heq, Hnan. do 2 f_equal.
    set (l := seq 0 (length lens)).
    replace (length lens) with (length l) by apply length_seq.
    generalize l. clear.
    induction l as [|k l IH]; simpl; [done|]. by rewrite progress_NaN, IH.
Qed.

(** ** One page and the page loop *)

Lemma resolve_out_page id v d : Forall (λ o, is_page_obs o = false) (resolve id v d).2.
Proof.
  unfold resolve. destruct (dl_img_response d); simpl; [constructor|].
  destruct v; simpl; repeat constructor.
Qed.

Lemma handle_out_page id ev d fs : Forall (λ o, is_page_obs o = false) (handle id ev d fs).2.
Proof.
  handle_cases d ev;
    repeat (first [apply Forall_nil_2 | apply resolve_out_page
                  | apply Forall_cons_2; [done|]]).
Qed.

Lemma deliver_all_length evs : ∀ w,
  length (w_tasks (deliver_all evs w)) = length (w_tasks w).
Proof.
  induction evs as [|e evs IH]; intros w; simpl; [done|].
  by rewrite IH, deliver_length.
Qed.

(** Late callbacks start nothing and request nothing. *)
Lemma deliver_all_trace evs : ∀ w,
  ∃ out, w_trace (deliver_all evs w) = w_trace w ++ out
       ∧ Forall (λ o, is_page_obs o = false) out.
Proof.
  induction evs as [|e evs IH]; intros w; simpl.
  { exists []. by rewrite app_nil_r. }
  destruct (IH (deliver e w)) as (out2 & -> & Hout2).
  assert (∃ out1, w_trace (deliver e w) = w_trace w ++ out1
                  ∧ Forall (λ o, is_page_obs o = false) out1) as (out1 & -> & Hout1).
  { destruct e as [id ev| |]; simpl; try (exists []; by rewrite app_nil_r).
    destruct (w_tasks w !! id) as [d|] eqn:Hd.
    - destruct (dispatch_same id ev w d Hd) as (_ & -> & _).
      eexists. split; [done|]. apply handle_out_page.
    - rewrite dispatch_none by done. exists []. by rewrite app_nil_r. }
  exists (out1 ++ out2). rewrite app_assoc. split; [done|]. by apply Forall_app.
Qed.

Lemma await_response_end pre chunks evs : ∀ w,
  Forall (λ e, is_DlEvent e = true) pre →
  await_response (pre ++ PageEnd chunks :: evs) w
  = (Some (inl (String.concat EmptyString chunks)), deliver_all pre w, evs).
Proof.
  induction pre as [|e pre IH]; intros w Hpre; simpl; [done|].
  apply Forall_cons in Hpre as [He Hpre].
  destruct e; simpl in *; try done; by rewrite ?IH.
Qed.

Lemma await_response_error pre message evs : ∀ w,
  Forall (λ e, is_DlEvent e = true) pre →
  await_response (pre ++ PageError message :: evs) w
  = (Some (inr message), deliver_all pre w, evs).
Proof.
  induction pre as [|e pre IH]; intros w Hpre; simpl; [done|].
  apply Forall_cons in Hpre as [He Hpre].
  destruct e; simpl in *; try done; by rewrite ?IH.
Qed.


Lemma page_loop_app JSON_parse zero_lt queryObject ps1 ps2 totalCount folderName offsetIndex :
  ∀ evs w,
  page_loop JSON_parse zero_lt queryObject (ps1 ++ ps2) totalCount folderName offsetIndex evs w
  = match page_loop JSON_parse zero_lt queryObject ps1 totalCount folderName
            offsetIndex evs w with
    | (Completed, w', evs') =>
        page_loop JSON_parse zero_lt queryObject ps2 totalCount folderName
                  offsetIndex evs' w'
    | r => r
    end.
Proof.
  induction ps1 as [|p ps1 IH]; intros evs w; simpl; [done|].
  by destruct (downloadPage _ _ _ _ _ _ _ _ _) as [[[] w'] evs'].
Qed.

(** C7. When the envelope of a page has no [data] member, or a [data]
    that is null or the empty array, [downloadPage] completes normally:
    it starts no download (the task table keeps its length, nothing is
    started or requested) and consumes no callback beyond the response. *)
Theorem empty_page_completes JSON_parse zero_lt queryObject pageId totalCount
    folderName offsetIndex pre chunks evs w fields :
  Forall (λ e, is_DlEvent e = true) pre →
  JSON_parse (String.concat EmptyString chunks) = Some (JObj fields) →
  (get_field "data" fields = None ∨ get_field "data" fields = Some JNull
   ∨ get_field "data" fields = Some (JArr [])) →
  let params := params_set "page" (pretty pageId) queryObject in
  let w0 := emit [ConsoleLogUrl params; ApiGet params] w in
  let r := downloadPage JSON_parse zero_lt queryObject pageId totalCount folderName
             offsetIndex (pre ++ PageEnd chunks :: evs) w in
  page_items zero_lt (JObj fields) = Some []
  ∧ r = (Completed, deliver_all pre w0, evs)
  ∧ length (w_tasks r.1.2) = length (w_tasks w)
  ∧ Forall (λ o, is_page_obs o = false) (new_trace w0 r.1.2).
Proof.
  intros Hpre Hparse Hdata params w0 r.
  assert (page_items zero_lt (JObj fields) = Some []) as Hitems.
  { unfold page_items. by destruct Hdata as [->|[->| ->]]. }
  assert (r = (Completed, deliver_all pre w0, evs)) as Hr.
  { unfold r, downloadPage. fold params. fold w0.
    rewrite await_response_end by done. by rewrite Hparse, Hitems. }
  split_and!; [done|done| |].
  - by rewrite Hr; simpl; rewrite deliver_all_length.
  - rewrite Hr. simpl. unfold new_trace.
    destruct (deliver_all_trace pre w0) as (out & -> & Hout).
    by rewrite drop_app_length.
Qed.

(** C9.  When the body of a page response is not JSON, [JSON.parse] throws
    in the 'end' callback, where nothing catches it: the promise that
    [downloadPage] awaits is neither resolved nor rejected, so the error is
    an uncaught exception and not a rejection that reaches the caller.  The
    run is over all the same: no download is started, the page loop stops at
    that page whatever pages completed before it, no later page is requested
    and the page is not requested again.  The 'error' callback of the same
    request, by contrast, calls [reject], and [downloadPage] is rejected
    with that error. *)
Theorem malformed_page_is_fatal JSON_parse zero_lt queryObject pageId totalCount
    folderName offsetIndex pre chunks evs w :
  Forall (λ e, is_DlEvent e = true) pre →
  JSON_parse (String.concat EmptyString chunks) = None →
  let params := params_set "page" (pretty pageId) queryObject in
  let w0 := emit [ConsoleLogUrl params; ApiGet params] w in
  let r := (Uncaught SyntaxError, deliver_all pre w0, evs) in
  downloadPage JSON_parse zero_lt queryObject pageId totalCount folderName
    offsetIndex (pre ++ PageEnd chunks :: evs) w = r
  ∧ (∀ before after evs0 wb,
       page_loop JSON_parse zero_lt queryObject before totalCount folderName
         offsetIndex evs0 wb = (Completed, w, pre ++ PageEnd chunks :: evs) →
       page_loop JSON_parse zero_lt queryObject (before ++ pageId :: after) totalCount
         folderName offsetIndex evs0 wb = r)
  ∧ length (w_tasks r.1.2) = length (w_tasks w)
  ∧ Forall (λ o, is_page_obs o = false) (new_trace w0 r.1.2)
  ∧ (∀ e, r.1.1 ≠ Rejected e)
  ∧ (∀ message,
       (downloadPage JSON_parse zero_lt queryObject pageId totalCount folderName
          offsetIndex (pre ++ PageError message :: evs) w).1.1
       = Rejected (RequestError message)).
Proof.
  intros Hpre Hparse params w0 r.
  assert (downloadPage JSON_parse zero_lt queryObject pageId totalCount folderName
            offsetIndex (pre ++ PageEnd chunks :: evs) w = r) as Hr.
  { unfold downloadPage. fold params. fold w0.
    rewrite await_response_end by done. by rewrite Hparse. }
  split_and!; [done| | | |done|].
  - intros before after evs0 wb Hbefore.
    rewrite page_loop_app, Hbefore. simpl. by rewrite Hr.
  - by simpl; rewrite deliver_all_length.
  - simpl. unfold new_trace.
    destruct (deliver_all_trace pre w0) as (out & -> & Hout).
    by rewrite drop_app_length.
  - intros message. unfold downloadPage. fold params. fold w0.
    by rewrite await_response_error.
Qed.









(** ** The schedule of a page *)










(** ** The theorems at concrete inputs *)




(** The first run downloads a.jpg; the second run finds it and requests
    nothing. *)
Lemma skip_if_exists_witness :
  w_tasks (download_batches 8 1 24 "W" 0 [example_item "a.jpg"] []
             (World (w_fs (download_batches 8 1 24 "W" 0 [example_item "a.jpg"]
                             [DlEvent 0 (Response 200 (Some "4")); DlEvent 0 (Data 4);
                              DlEvent 0 WriterFinish] empty_world).1.2) [] [])).1.2
    !! 0%nat = Some (dl_skipped example_task)
  ∧ file_path (dl_task (dl_skipped example_task))
    ∈ w_fs (download_batches 8 1 24 "W" 0 [example_item "a.jpg"]
              [DlEvent 0 (Response 200 (Some "4")); DlEvent 0 (Data 4);
               DlEvent 0 WriterFinish] empty_world).1.2
  ∧ ∀ url,
      HttpsGet 0 url
      ∉ w_trace (download_batches 8 1 24 "W" 0 [example_item "a.jpg"] []
                   (World (w_fs (download_batches 8 1 24 "W" 0 [example_item "a.jpg"]
                                   [DlEvent 0 (Response 200 (Some "4")); DlEvent 0 (Data 4);
                                    DlEvent 0 WriterFinish] empty_world).1.2) [] [])).1.2.
Proof.
  assert (w_tasks (download_batches 8 1 24 "W" 0 [example_item "a.jpg"] []
             (World (w_fs (download_batches 8 1 24 "W" 0 [example_item "a.jpg"]
                             [DlEvent 0 (Response 200 (Some "4")); DlEvent 0 (Data 4);
                              DlEvent 0 WriterFinish] empty_world).1.2) [] [])).1.2
            !! 0%nat = Some (dl_skipped example_task)) as H1 by (vm_compute; reflexivity).
  assert (file_path (dl_task (dl_skipped example_task))
          ∈ w_fs (download_batches 8 1 24 "W" 0 [example_item "a.jpg"]
                    [DlEvent 0 (Response 200 (Some "4")); DlEvent 0 (Data 4);
                     DlEvent 0 WriterFinish] empty_world).1.2) as H2 by compute_done.
  split; [exact H1|]. split; [exact H2|].
  exact (proj1 (proj2 (proj2 skip_if_exists 8%nat 1 24 "W"%string 0 [example_item "a.jpg"]
           [DlEvent 0 (Response 200 (Some "4"%string)); DlEvent 0 (Data 4);
            DlEvent 0 WriterFinish] [] empty_world 0%nat _ H1 H2))).
Defined.


(** A 404 on the only download of an empty directory. *)
Lemma non_200_creates_no_file_witness :
  (file_path example_task ∉ w_fs empty_world)
  ∧ 404 ≠ 200
  ∧ (∀ s' h', DlEvent (length (w_tasks empty_world)) (Response s' h') ∉ [])
  ∧ ConsoleError (file_path example_task) ("Failed to download image: " +:+ pretty 404)
    ∈ new_trace empty_world
        (deliver_all ([] ++ DlEvent (length (w_tasks empty_world)) (Response 404 None) :: [])
                     (saveImageToFile example_task empty_world)).
Proof.
  assert (file_path example_task ∉ w_fs empty_world) as H1 by apply not_elem_of_empty.
  assert (404 ≠ 200) as H2 by lia.
  assert (∀ s' h', DlEvent (length (w_tasks empty_world)) (Response s' h') ∉ []) as H3.
  { intros s' h'. apply not_elem_of_nil. }
  split; [exact H1|]. split; [exact H2|]. split; [exact H3|].
  exact (proj1 (non_200_creates_no_file example_task empty_world [] 404 None [] H1 H2 H3)).
Defined.

(** An envelope without [data]. *)
Lemma empty_page_completes_witness :
  Forall (λ e, is_DlEvent e = true) []
  ∧ example_parse (String.concat EmptyString ["{"; "}"]) = Some (JObj [])
  ∧ get_field "data" [] = None
  ∧ downloadPage example_parse (λ _, false) [("apikey", "k")] 1 24 "W" 0
      ([] ++ PageEnd ["{"; "}"] :: []) empty_world
    = (Completed,
       deliver_all []
         (emit [ConsoleLogUrl (params_set "page" (pretty 1) [("apikey", "k")]);
                ApiGet (params_set "page" (pretty 1) [("apikey", "k")])] empty_world),
       []).
Proof.
  assert (Forall (λ e, is_DlEvent e = true) []) as H1 by constructor.
  assert (example_parse (String.concat EmptyString ["{"; "}"]) = Some (JObj [])) as H2
    by reflexivity.
  assert (get_field "data" [] = None) as H3 by reflexivity.
  split; [exact H1|]. split; [exact H2|]. split; [exact H3|].
  exact (proj1 (proj2 (empty_page_completes example_parse (λ _, false) [("apikey", "k")]
                         1 24 "W" 0 [] ["{"; "}"] [] empty_world [] H1 H2
                         (or_introl H3)))).
Defined.

(** Ten bytes announced, received as 4 then 6: 40% and 100%. *)
Lemma progress_percent_witness :
  (file_path example_task ∉ w_fs empty_world)
  ∧ new_trace (saveImageToFile example_task empty_world)
      (deliver_all (DlEvent (length (w_tasks empty_world)) (Response 200 (Some "10"))
                    :: map (λ n, DlEvent (length (w_tasks empty_world)) (Data n)) [4; 6])
                   (saveImageToFile example_task empty_world))
    = [CreateWriteStream 0 "W/a.jpg"; SetTimeout 0;
       StdoutWrite "a.jpg" (JSNum.of_Z 40) 1 24 false;
       StdoutWrite "a.jpg" (JSNum.of_Z 100) 1 24 false].
Proof.
  assert (file_path example_task ∉ w_fs empty_world) as H1 by apply not_elem_of_empty.
  split; [exact H1|].
  rewrite (proj1 (progress_percent example_task empty_world (Some "10") [4; 6] H1)).
  vm_compute. reflexivity.
Defined.

(** 29 bytes of 200: the exact quotient is 14.5, which rounds to 15, but
    the binary64 product [29 / 200 * 100] is just below 14.5 and rounds to
    14. *)
Lemma progress_percent_counterexample :
  progress 29 (JSNum.parseInt (Some "200")) = JSNum.of_Z 14
  ∧ percent_exact 29 200 = 15
  ∧ progress 29 (JSNum.parseInt (Some "200")) ≠ JSNum.of_Z (percent_exact 29 200).
Proof. split_and!; by vm_compute. Qed.

(** An HTML error page instead of JSON. *)
Lemma malformed_page_is_fatal_witness :
  Forall (λ e, is_DlEvent e = true) []
  ∧ example_parse (String.concat EmptyString ["<html>"]) = None
  ∧ downloadPage example_parse (λ _, false) [("apikey", "k")] 1 24 "W" 0
      ([] ++ PageEnd ["<html>"] :: []) empty_world
    = (Uncaught SyntaxError,
       deliver_all []
         (emit [ConsoleLogUrl (params_set "page" (pretty 1) [("apikey", "k")]);
                ApiGet (params_set "page" (pretty 1) [("apikey", "k")])] empty_world),
       []).
Proof.
  assert (Forall (λ e, is_DlEvent e = true) []) as H1 by constructor.
  assert (example_parse (String.concat EmptyString ["<html>"]) = None) as H2 by reflexivity.
  split; [exact H1|]. split; [exact H2|].
  exact (proj1 (malformed_page_is_fatal example_parse (λ _, false) [("apikey", "k")]
                  1 24 "W" 0 [] ["<html>"] [] empty_world H1 H2)).
Defined.



(** * Further properties of the code *)

(** ** [URLSearchParams.set] *)

Lemma filter_key_other (k : string) (l : list (string * string)) :
  filter (λ p, String.eqb k p.1 = true) (filter (λ p, negb (String.eqb k p.1)) l) = [].
Proof.
  induction l as [|[k' v'] l IH]; [done|].
  rewrite (filter_cons (λ p, Is_true (negb (String.eqb k p.1)))).
  destruct (decide _) as [Hk|Hk]; simpl in Hk; [|done].
  rewrite filter_cons. destruct (decide _) as [Hk2|Hk2]; simpl in Hk2; [|done].
  by rewrite Hk2 in Hk.
Qed.

Lemma filter_key_same (k : string) (l : list (string * string)) :
  filter (λ p, String.eqb k p.1 = false) (filter (λ p, negb (String.eqb k p.1)) l)
  = filter (λ p, String.eqb k p.1 = false) l.
Proof.
  induction l as [|[k' v'] l IH]; [done|].
  rewrite (filter_cons (λ p, Is_true (negb (String.eqb k p.1)))).
  rewrite (filter_cons (λ p, String.eqb k p.1 = false) (k', v')).
  destruct (decide (Is_true _)) as [Hk|Hk]; simpl in Hk.
  - rewrite filter_cons. destruct (decide _); simpl in *; [by rewrite IH|done].
  - destruct (decide _) as [Hk2|Hk2]; simpl in Hk2; [|done]. by rewrite Hk2 in Hk.
Qed.

Lemma params_set_facts k v l :
  params_getAll k (params_set k v l) = [v]
  ∧ filter (λ p, String.eqb k p.1 = false) (params_set k v l)
    = filter (λ p, String.eqb k p.1 = false) l
  ∧ params_set k v (params_set k v l) = params_set k v l.
Proof.
  unfold params_getAll. induction l as [|[k' v'] l (IH1 & IH2 & IH3)].
  - cbn [params_set]. rewrite String.eqb_refl.
    rewrite filter_cons_True by (simpl; apply String.eqb_refl).
    rewrite filter_cons_False by (simpl; by rewrite String.eqb_refl). done.
  - cbn [params_set]. destruct (String.eqb k k') eqn:Hk.
    + cbn [params_set]. rewrite String.eqb_refl. split_and!.
      * rewrite filter_cons_True by (simpl; apply String.eqb_refl).
        by rewrite filter_key_other.
      * rewrite filter_cons_False by (simpl; by rewrite String.eqb_refl).
        rewrite (filter_cons_False _ (k', v')) by (simpl; by rewrite Hk).
        apply filter_key_same.
      * f_equal. clear. induction l as [|[k2 v2] l IHl]; [done|].
        rewrite (filter_cons _ (k2, v2)). destruct (decide _) as [H2|H2].
        -- rewrite filter_cons_True by done. by rewrite IHl.
        -- apply IHl.
    + cbn [params_set]. rewrite Hk. split_and!.
      * rewrite filter_cons_False by (simpl; by rewrite Hk). done.
      * rewrite !(filter_cons_True _ (k', v')) by (simpl; by rewrite Hk).
        by rewrite IH2.
      * by rewrite IH3.
Qed.
(** After [params.set(k, v)] the key [k] has the single value [v], the
    other parameters are those of before, in the same order, and setting
    the same value again changes nothing. *)
Theorem params_set_spec k v l :
  params_getAll k (params_set k v l) = [v]
  ∧ filter (λ p, String.eqb k p.1 = false) (params_set k v l)
    = filter (λ p, String.eqb k p.1 = false) l
  ∧ params_set k v (params_set k v l) = params_set k v l.
Proof. apply params_set_facts. Qed.

Lemma params_set_others k v l :
  filter (λ p, String.eqb k p.1 = false) (params_set k v l)
  = filter (λ p, String.eqb k p.1 = false) l.
Proof. apply params_set_facts. Qed.

(** ** File names *)

Lemma split_nonempty sep s : split sep s ≠ [].
Proof.
  destruct s as [|c s]; simpl; [done|].
  destruct (Ascii.eqb c sep); [done|]. by destruct (split sep s).
Qed.

Lemma split_app sep a b :
  split sep (a +:+ String sep b) = split sep a ++ split sep b.
Proof.
  induction a as [|c a IH]; simpl.
  - by rewrite Ascii.eqb_refl.
  - rewrite IH. destruct (Ascii.eqb c sep); [done|].
    pose proof (split_nonempty sep a). by destruct (split sep a).
Qed.

Lemma last_app_nonempty {A} (l1 l2 : list A) d : l2 ≠ [] → List.last (l1 ++ l2) d = List.last l2 d.
Proof.
  intros H2. induction l1 as [|x l1 IH]; [done|].
  simpl. destruct (l1 ++ l2) eqn:E; [|done].
  apply app_eq_nil in E as [_ ?]. done.
Qed.

Lemma split_no_slash s : no_slash s = true → split "/" s = [s].
Proof.
  induction s as [|c s IH]; simpl; [done|].
  intros [Hc Hs]%andb_true_iff. apply negb_true_iff in Hc. rewrite Hc.
  by rewrite IH.
Qed.

Lemma split_pop_no_slash s : no_slash (split_pop s) = true.
Proof.
  unfold split_pop. induction s as [|c s IH]; simpl; [done|].
  pose proof (split_nonempty "/" s) as Hne.
  destruct (Ascii.eqb c "/") eqn:Hc.
  - by destruct (split "/" s).
  - destruct (split "/" s) as [|h [|h2 t]]; [done| |done].
    simpl in *. by rewrite Hc, IH.
Qed.

(** The destination of an item is the folder, a slash and the last segment
    of the item's URL; that segment contains no slash, and it is also the
    file name the progress and failure lines show. *)
Theorem destination_is_last_segment pageId totalCount folderName offsetIndex i index data t :
  mk_task pageId totalCount folderName offsetIndex i index data = Some t →
  item_path data = Some (image_url t)
  ∧ file_path t = folderName +:+ "/" +:+ split_pop (image_url t)
  ∧ no_slash (split_pop (image_url t)) = true
  ∧ split_pop (file_path t) = split_pop (image_url t)
  ∧ total_images t = totalCount.
Proof.
  unfold mk_task. destruct (item_path data) as [imagePath|]; [|done].
  intros [= <-]. simpl. split_and!; try done.
  - apply split_pop_no_slash.
  - unfold split_pop at 1.
    change (folderName +:+ "/" +:+ split_pop imagePath)
      with (folderName +:+ String "/" (split_pop imagePath)).
    rewrite split_app, last_app_nonempty by apply split_nonempty.
    by rewrite split_no_slash by apply split_pop_no_slash.
Qed.

Lemma destination_is_last_segment_witness :
  mk_task 1 24 "W" 0 0 0 (example_item "a.jpg") = Some example_task
  ∧ split_pop (file_path example_task) = split_pop (image_url example_task).
Proof.
  assert (mk_task 1 24 "W" 0 0 0 (example_item "a.jpg") = Some example_task) as H
    by reflexivity.
  split; [exact H|].
  exact (proj1 (proj2 (proj2 (proj2
    (destination_is_last_segment 1 24 "W" 0 0%nat 0%nat _ _ H))))).
Defined.

(** ** Prompts *)

Lemma includes_elem x l : includes x l = true ↔ x ∈ l.
Proof.
  unfold includes. rewrite existsb_exists. split.
  - intros (y & Hy & ->%String.eqb_eq). by apply list_elem_of_In.
  - intros Hx. exists x. split; [by apply list_elem_of_In|apply String.eqb_refl].
Qed.

Lemma promptUser_sound message opts defaultValue lines a :
  (promptUser message (Some opts) defaultValue lines).1.1 = Answered a → a ∈ opts.
Proof.
  unfold promptUser. destruct lines as [|l1 lines]; simpl; [done|].
  match goal with |- context [includes ?i opts] => destruct (includes i opts) eqn:Hin end;
    simpl.
  - intros [= <-]. by apply includes_elem.
  - destruct lines as [|l2 lines]; simpl; [done|].
    destruct (includes l2 opts) eqn:Hin2; simpl; [|done].
    intros [= <-]. by apply includes_elem.
Qed.

(** With a list of valid options, [promptUser] only ever answers with one of
    them; it reads at most two lines, asking again once after an invalid
    first answer; after a second invalid answer it never answers, whatever
    the user types next; and a first line that [trim] empties (any white
    space, Unicode included) stands for the default, while a blank second
    line does not. *)
Theorem promptUser_answers_valid message opts defaultValue lines :
  let r := promptUser message (Some opts) defaultValue lines in
  (∀ a, r.1.1 = Answered a → a ∈ opts)
  ∧ (∃ used, lines = used ++ r.1.2 ∧ (length used ≤ 2)%nat
             ∧ (r.1.1 = Abandoned → length used = 2%nat)
             ∧ (r.1.1 = Waiting → r.1.2 = []))
  ∧ (∀ dv first rest, defaultValue = Some dv → lines = first :: rest →
       is_blank first = true → dv ∈ opts →
       r.1.1 = Answered dv ∧ r.1.2 = rest)
  ∧ (∀ first second rest, lines = first :: second :: rest →
       r.1.1 ≠ Answered first → second ∉ opts →
       (∀ dv, defaultValue = Some dv → is_blank first = true → dv ∉ opts) →
       r.1.1 = Abandoned ∧ r.1.2 = rest).
Proof.
  intros r. unfold r, promptUser.
  destruct lines as [|l1 lines]; simpl.
  { split_and!; try done. exists []. split_and!; [done|simpl; lia|done|done]. }
  set (input := match defaultValue with
                | Some dv => if is_blank l1 then dv else l1
                | None => l1 end).
  destruct (includes input opts) eqn:Hin; simpl.
  - split_and!.
    + intros a [= <-]. by apply includes_elem.
    + exists [l1]. split_and!; [done|simpl; lia|done|done].
    + intros dv first rest -> [= <- <-] Hb Hdv. unfold input. by rewrite Hb.
    + intros first second rest [= <- ->] Hne Hsec Hdef. exfalso.
      unfold input in *. destruct defaultValue as [dv|]; [|done].
      destruct (is_blank l1) eqn:Hb; [|done].
      apply (Hdef dv eq_refl eq_refl). by apply includes_elem.
  - destruct lines as [|l2 lines]; simpl.
    { split_and!; try done.
      - exists [l1]. split_and!; [done|simpl; lia|done|done].
      - intros dv first rest -> [= <- <-] Hb Hdv. exfalso.
        unfold input in Hin. rewrite Hb in Hin.
        apply includes_elem in Hdv. congruence. }
    destruct (includes l2 opts) eqn:Hin2; simpl.
    + split_and!.
      * intros a [= <-]. by apply includes_elem.
      * exists [l1; l2]. split_and!; [done|simpl; lia|done|done].
      * intros dv first rest -> [= <- <-] Hb Hdv. exfalso.
        unfold input in Hin. rewrite Hb in Hin.
        apply includes_elem in Hdv. congruence.
      * intros first second rest [= <- <- <-] _ Hsec. exfalso.
        apply Hsec. by apply includes_elem.
    + split_and!; try done.
      * exists [l1; l2]. split_and!; [done|simpl; lia|done|done].
      * intros dv first rest -> [= <- <-] Hb Hdv. exfalso.
        unfold input in Hin. rewrite Hb in Hin.
        apply includes_elem in Hdv. congruence.
      * by intros first second rest [= <- <- <-] _ _ _.
Qed.

Lemma promptUser_answers_valid_witness :
  (promptUser "Enter Purity" (Some (keys purities)) (Some "sfw") ["xxx"; "nsfw"; "1w"]).1.1
  = Answered "nsfw"
  ∧ "nsfw" ∈ keys purities.
Proof.
  assert ((promptUser "Enter Purity" (Some (keys purities)) (Some "sfw")
             ["xxx"; "nsfw"; "1w"]).1.1 = Answered "nsfw") as H by reflexivity.
  split; [exact H|].
  exact (proj1 (promptUser_answers_valid "Enter Purity" (keys purities) (Some "sfw")
                  ["xxx"; "nsfw"; "1w"]) "nsfw" H).
Defined.

(** ** The query the dialogue builds *)

Lemma filter_key_ne (k k' : string) (l : list (string * string)) :
  String.eqb k' k = false →
  filter (λ p, String.eqb k' p.1 = true) (filter (λ p, String.eqb k p.1 = false) l)
  = filter (λ p, String.eqb k' p.1 = true) l.
Proof.
  intros Hne. induction l as [|[k2 v2] l IH]; [done|].
  rewrite (filter_cons (λ p, String.eqb k p.1 = false)).
  rewrite (filter_cons (λ p, String.eqb k' p.1 = true) (k2, v2)).
  destruct (decide (String.eqb k (k2, v2).1 = false)) as [Hk|Hk]; simpl in Hk.
  - rewrite filter_cons. by rewrite IH.
  - destruct (decide _) as [Hk2|Hk2]; simpl in Hk2; [|done].
    apply String.eqb_eq in Hk2 as ->. apply not_false_iff_true, String.eqb_eq in Hk.
    subst. by rewrite String.eqb_refl in Hne.
Qed.

Lemma params_getAll_set_ne k k' v l :
  String.eqb k' k = false → params_getAll k' (params_set k v l) = params_getAll k' l.
Proof.
  intros Hne. unfold params_getAll.
  rewrite <- (filter_key_ne k k' (params_set k v l)), <- (filter_key_ne k k' l) by done.
  by rewrite params_set_others.
Qed.

Lemma property_keys x o :
  x ∈ keys o → ∃ v, property x o = Some v ∧ v ∈ map snd o.
Proof.
  unfold keys. induction o as [|[k v] o IH]; simpl.
  - by intros ?%elem_of_nil.
  - destruct (String.eqb x k) eqn:Hk.
    + intros _. exists v. split; [done|]. apply list_elem_of_here.
    + intros [->|Hx]%elem_of_cons; [by rewrite String.eqb_refl in Hk|].
      destruct (IH Hx) as (v' & ? & ?). exists v'. split; [done|].
      by apply list_elem_of_further.
Qed.

Lemma flow_bind_Some {A B} (f : flow A) (g : A → flow B) u b u2 :
  flow_bind f g u = (Some b, u2) →
  ∃ a u1, f u = (Some a, u1) ∧ g a u1 = (Some b, u2).
Proof.
  unfold flow_bind. destruct (f u) as [[a|] u1]; [|done]. by exists a, u1.
Qed.

Lemma prompt_Some message validOptions defaultValue u a u1 :
  prompt message validOptions defaultValue u = (Some a, u1) →
  ui_query u1 = ui_query u
  ∧ (∀ opts, validOptions = Some opts → a ∈ opts).
Proof.
  unfold prompt.
  destruct (promptUser message validOptions defaultValue (ui_lines u))
    as [[r lines] out] eqn:Hp.
  destruct r as [input| |]; [|done..]. intros [= <- <-]. split; [done|].
  intros opts ->.
  apply (promptUser_sound message opts defaultValue (ui_lines u)).
  by rewrite Hp.
Qed.

Lemma selectCategoryTag_Some u u1 :
  selectCategoryTag u = (Some tt, u1) →
  ∃ c, c ∈ map snd categories ∧ ui_query u1 = params_set "categories" c (ui_query u).
Proof.
  unfold selectCategoryTag. intros H.
  apply flow_bind_Some in H as ([] & u0 & H0 & H).
  apply flow_bind_Some in H as (input & u2 & Hp & Hs).
  apply pair_equal_spec in H0 as [_ <-]. apply pair_equal_spec in Hs as [_ <-].
  apply prompt_Some in Hp as [Hq Hin].
  destruct (property_keys input categories (Hin _ eq_refl)) as (c & Hc & Hcin).
  exists c. split; [done|]. cbn [ui_query] in *. by rewrite Hc, Hq.
Qed.

Lemma selectPurityTag_Some u u1 :
  selectPurityTag u = (Some tt, u1) →
  ∃ p, p ∈ map snd purities ∧ ui_query u1 = params_set "purity" p (ui_query u).
Proof.
  unfold selectPurityTag. intros H.
  apply flow_bind_Some in H as ([] & u0 & H0 & H).
  apply flow_bind_Some in H as (input & u2 & Hp & Hs).
  apply pair_equal_spec in H0 as [_ <-]. apply pair_equal_spec in Hs as [_ <-].
  apply prompt_Some in Hp as [Hq Hin].
  destruct (property_keys input purities (Hin _ eq_refl)) as (c & Hc & Hcin).
  exists c. split; [done|]. cbn [ui_query] in *. by rewrite Hc, Hq.
Qed.

Lemma selectTopRange_Some u u1 :
  selectTopRange u = (Some tt, u1) →
  ∃ r, r ∈ valid_ranges ∧ ui_query u1 = params_set "topRange" r (ui_query u).
Proof.
  unfold selectTopRange. intros H.
  apply flow_bind_Some in H as (input & u2 & Hp & Hs).
  apply pair_equal_spec in Hs as [_ <-].
  apply prompt_Some in Hp as [Hq Hin]. exists input.
  split; [by apply Hin|]. cbn [ui_query]. by rewrite Hq.
Qed.

(** Whenever the dialogue of [main] completes, the mode is one of the four
    offered and [queryObject] is the one of before with, for "category" a
    category and a purity code of the tables, for "latest" a valid range and
    sorting toplist, for "toplist" all of these and order desc, for "search"
    the line typed as [q]; in particular the API key is never touched. *)
Theorem main_query_well_formed u choice u' :
  main_query u = (Some choice, u') →
  let q := ui_query u in
  let q' := ui_query u' in
  choice ∈ ["category"; "latest"; "search"; "toplist"]
  ∧ params_getAll "apikey" q' = params_getAll "apikey" q
  ∧ (choice = "category" →
       ∃ c p, c ∈ map snd categories ∧ p ∈ map snd purities
              ∧ q' = params_set "purity" p (params_set "categories" c q))
  ∧ (choice = "latest" →
       ∃ r, r ∈ valid_ranges
            ∧ q' = params_set "sorting" "toplist" (params_set "topRange" r q))
  ∧ (choice = "toplist" →
       ∃ c p r, c ∈ map snd categories ∧ p ∈ map snd purities ∧ r ∈ valid_ranges
                ∧ q' = params_set "order" "desc"
                         (params_set "sorting" "toplist"
                            (params_set "topRange" r
                               (params_set "purity" p (params_set "categories" c q)))))
  ∧ (choice = "search" → ∃ line, q' = params_set "q" line q).
Proof.
  unfold main_query. intros H.
  apply flow_bind_Some in H as (c0 & u0 & Hc & H).
  apply flow_bind_Some in H as (x & u1 & Hb & Hr).
  apply pair_equal_spec in Hr as [[= <-] <-].
  unfold selectChoice in Hc. apply prompt_Some in Hc as [Hq0 Hin].
  specialize (Hin _ eq_refl). rewrite <- Hq0. destruct x.
  split; [done|].
  repeat (apply elem_of_cons in Hin as [->|Hin]); [..|by apply elem_of_nil in Hin];
    cbn [String.eqb Ascii.eqb Bool.eqb] in Hb.
  - apply flow_bind_Some in Hb as ([] & u2 & (c & Hcin & Hc1)%selectCategoryTag_Some
                                      & (p & Hpin & Hp1)%selectPurityTag_Some).
    rewrite Hp1, Hc1. split_and!; try done.
    + by rewrite !params_getAll_set_ne.
    + intros _. by exists c, p.
  - apply flow_bind_Some in Hb as ([] & u2 & (r & Hrin & Hr1)%selectTopRange_Some & Hs).
    apply pair_equal_spec in Hs as [_ <-]. cbn [ui_query]. rewrite Hr1.
    split_and!; try done.
    + by rewrite !params_getAll_set_ne.
    + intros _. by exists r.
  - apply flow_bind_Some in Hb as (line & u2 & [Hq2 _]%prompt_Some & Hs).
    apply pair_equal_spec in Hs as [_ <-]. cbn [ui_query]. rewrite Hq2.
    split_and!; try done.
    + by rewrite !params_getAll_set_ne.
    + intros _. by exists line.
  - apply flow_bind_Some in Hb as ([] & u2 & (c & Hcin & Hc1)%selectCategoryTag_Some & Hb).
    apply flow_bind_Some in Hb as ([] & u3 & (p & Hpin & Hp1)%selectPurityTag_Some & Hb).
    apply flow_bind_Some in Hb as ([] & u4 & (r & Hrin & Hr1)%selectTopRange_Some & Hb).
    apply flow_bind_Some in Hb as ([] & u5 & Hs1 & Hs2).
    apply pair_equal_spec in Hs1 as [_ <-]. apply pair_equal_spec in Hs2 as [_ <-].
    cbn [ui_query]. rewrite Hr1, Hp1, Hc1.
    split_and!; try done.
    + by rewrite !params_getAll_set_ne.
    + intros _. by exists c, p, r.
Qed.

Lemma main_query_well_formed_witness :
  main_query (UI [("apikey", "k")] [""; "anime"; ""; "1w"] [])
  = (Some "toplist",
     UI (params_set "order" "desc"
           (params_set "sorting" "toplist"
              (params_set "topRange" "1w"
                 (params_set "purity" "100"
                    (params_set "categories" "010" [("apikey", "k")])))))
        []
        (ui_tty (main_query (UI [("apikey", "k")] [""; "anime"; ""; "1w"] [])).2))
  ∧ "toplist" ∈ ["category"; "latest"; "search"; "toplist"].
Proof.
  assert (main_query (UI [("apikey", "k")] [""; "anime"; ""; "1w"] [])
          = (Some "toplist",
             UI (params_set "order" "desc"
                   (params_set "sorting" "toplist"
                      (params_set "topRange" "1w"
                         (params_set "purity" "100"
                            (params_set "categories" "010" [("apikey", "k")])))))
                []
                (ui_tty (main_query (UI [("apikey", "k")] [""; "anime"; ""; "1w"] [])).2)))
    as H by (vm_compute; reflexivity).
  split; [exact H|].
  exact (proj1 (main_query_well_formed _ _ _ H)).
Defined.
(** ** Code signing *)

Lemma sign_one_commands distPath fs execSync exe :
  filter (λ o, is_SignExec o = true) (sign_one distPath fs execSync exe)
  = map (λ exe, SignExec ("codesign --sign - " +:+ dq +:+ (distPath +:+ "/" +:+ exe) +:+ dq))
        (filter (λ exe, distPath +:+ "/" +:+ exe ∈ fs) [exe]).
Proof.
  unfold sign_one. case_bool_decide as Hex.
  - rewrite (filter_cons_True (λ exe, distPath +:+ "/" +:+ exe ∈ fs)) by done.
    by destruct (execSync _).
  - by rewrite (filter_cons_False (λ exe, distPath +:+ "/" +:+ exe ∈ fs)) by done.
Qed.

(** On macOS [signMacOS] runs codesign once for each of the two
    executables that exists in the dist directory, x64 first, whether or
    not an earlier command failed; on any other platform it runs nothing. *)
Theorem signMacOS_commands platform distPath fs execSync :
  filter (λ o, is_SignExec o = true) (signMacOS platform distPath fs execSync)
  = if String.eqb platform "darwin" then
      map (λ exe, SignExec ("codesign --sign - " +:+ dq +:+ (distPath +:+ "/" +:+ exe) +:+ dq))
          (filter (λ exe, distPath +:+ "/" +:+ exe ∈ fs) macosExecutables)
    else [].
Proof.
  unfold signMacOS. destruct (String.eqb platform "darwin"); [|done].
  unfold macosExecutables. cbn [negb flat_map]. rewrite !filter_app, app_nil_r.
  rewrite !sign_one_commands.
  change ["wh-dl-macos-x64"; "wh-dl-macos-arm64"]
    with (["wh-dl-macos-x64"] ++ ["wh-dl-macos-arm64"]).
  by rewrite filter_app, map_app.
Qed.

(** ** A page request that fails, a page with a malformed item *)

(** When the search request emits 'error', [downloadPage] rejects with
    that error without starting a download, and the page loop stops at
    that page whatever pages completed before. *)
Theorem page_request_error_is_fatal JSON_parse zero_lt queryObject pageId totalCount
    folderName offsetIndex pre message evs w :
  Forall (λ e, is_DlEvent e = true) pre →
  let params := params_set "page" (pretty pageId) queryObject in
  let w0 := emit [ConsoleLogUrl params; ApiGet params] w in
  let r := (Rejected (RequestError message), deliver_all pre w0, evs) in
  downloadPage JSON_parse zero_lt queryObject pageId totalCount folderName
    offsetIndex (pre ++ PageError message :: evs) w = r
  ∧ (∀ before after evs0 wb,
       page_loop JSON_parse zero_lt queryObject before totalCount folderName
         offsetIndex evs0 wb = (Completed, w, pre ++ PageError message :: evs) →
       page_loop JSON_parse zero_lt queryObject (before ++ pageId :: after) totalCount
         folderName offsetIndex evs0 wb = r)
  ∧ length (w_tasks r.1.2) = length (w_tasks w).
Proof.
  intros Hpre params w0 r.
  assert (downloadPage JSON_parse zero_lt queryObject pageId totalCount folderName
            offsetIndex (pre ++ PageError message :: evs) w = r) as Hr.
  { unfold downloadPage. fold params. fold w0. by rewrite await_response_error. }
  split_and!; [done| |].
  - intros before after evs0 wb Hbefore.
    rewrite page_loop_app, Hbefore. simpl. by rewrite Hr.
  - by simpl; rewrite deliver_all_length.
Qed.

Lemma page_request_error_is_fatal_witness :
  Forall (λ e, is_DlEvent e = true) []
  ∧ downloadPage example_parse (λ _, false) [("apikey", "k")] 1 24 "W" 0
      ([] ++ PageError "getaddrinfo ENOTFOUND" :: []) empty_world
    = (Rejected (RequestError "getaddrinfo ENOTFOUND"),
       deliver_all []
         (emit [ConsoleLogUrl (params_set "page" (pretty 1) [("apikey", "k")]);
                ApiGet (params_set "page" (pretty 1) [("apikey", "k")])] empty_world),
       []).
Proof.
  assert (Forall (λ e, is_DlEvent e = true) []) as H1 by constructor.
  split; [exact H1|].
  exact (proj1 (page_request_error_is_fatal example_parse (λ _, false) [("apikey", "k")]
                  1 24 "W" 0 [] "getaddrinfo ENOTFOUND" [] empty_world H1)).
Defined.

Lemma map_batch_good mkf batch : ∀ index w,
  (∀ k data, batch !! k = Some data → is_Some (mkf (index + k)%nat data)) →
  (map_batch mkf index batch w).2 = true
  ∧ length (w_tasks (map_batch mkf index batch w).1)
    = (length (w_tasks w) + length batch)%nat.
Proof.
  induction batch as [|data rest IH]; intros index w Hgood; simpl.
  { split; [done|lia]. }
  destruct (Hgood 0%nat data eq_refl) as [t Ht]. rewrite Nat.add_0_r in Ht.
  rewrite Ht. destruct (IH (S index) (saveImageToFile t w)) as [-> ->].
  { intros k d Hk. replace (S index + k)%nat with (index + S k)%nat by lia.
    by apply Hgood. }
  rewrite saveImageToFile_length. split; [done|lia].
Qed.

Lemma map_batch_app mkf l1 l2 : ∀ index w,
  map_batch mkf index (l1 ++ l2) w
  = match map_batch mkf index l1 w with
    | (w1, true) => map_batch mkf (index + length l1) l2 w1
    | r => r
    end.
Proof.
  induction l1 as [|data l1 IH]; intros index w; simpl.
  { by rewrite Nat.add_0_r. }
  destruct (mkf index data); [|done]. rewrite IH.
  by replace (S index + length l1)%nat with (index + S (length l1))%nat by lia.
Qed.

(** A page with an item that has no string [path] never completes; and
    when the first such item is in the first batch, after [good] items,
    [downloadPage]'s loop rejects with a TypeError at once: the downloads of
    the items before it have been started and are left unattended, and no
    callback has been delivered. *)
Theorem malformed_item_rejects_page L pageId totalCount folderName offsetIndex evs w :
  (0 < L)%nat →
  (∀ pageData data, data ∈ pageData → item_path data = None →
     (download_batches L pageId totalCount folderName offsetIndex pageData evs w).1.1
     ≠ Completed)
  ∧ (∀ good bad rest,
       Forall (λ data, is_Some (item_path data)) good →
       item_path bad = None → (length good < L)%nat →
       let r := download_batches L pageId totalCount folderName offsetIndex
                  (good ++ bad :: rest) evs w in
       r.1.1 = Rejected TypeError ∧ r.2 = evs
       ∧ length (w_tasks r.1.2) = (length (w_tasks w) + length good)%nat
       ∧ w_fs r.1.2 = w_fs w).
Proof.
  intros HL. split.
  - intros pageData data Hin Hbad Hc.
    destruct (download_batches_spec L pageId totalCount folderName offsetIndex
                pageData evs w HL) as (Hit & _ & Hcomp & _).
    destruct (Hcomp Hc) as [Hlen _].
    apply list_elem_of_lookup in Hin as [j Hj].
    destruct (lookup_lt_is_Some_2
                (w_tasks (download_batches L pageId totalCount folderName offsetIndex
                            pageData evs w).1.2) (length (w_tasks w) + j)) as [d Hd].
    { rewrite Hlen. apply lookup_lt_Some in Hj. lia. }
    destruct (Hit j (dl_task d)) as (data' & Hj' & Hmk).
    { by rewrite list_lookup_fmap, Hd. }
    rewrite Hj in Hj'. injection Hj' as <-.
    unfold mk_task in Hmk. by rewrite Hbad in Hmk.
  - intros good bad rest Hgood Hbad Hlen r.
    unfold r. rewrite download_batches_pos by done. unfold batches.
    rewrite length_app. simpl.
    rewrite Nat.add_succ_r. simpl.
    unfold slice. rewrite Nat.sub_0_r, drop_0. simpl.
    rewrite take_app_ge by lia.
    destruct (L - length good)%nat as [|m] eqn:Hm; [lia|]. simpl.
    rewrite map_batch_app.
    destruct (map_batch_good (mk_task pageId totalCount folderName offsetIndex 0) good
                0%nat w) as [Hok Hlen1].
    { intros k data Hk. rewrite Forall_lookup in Hgood.
      destruct (Hgood k data Hk) as [p Hp]. unfold mk_task. by rewrite Hp. }
    destruct (map_batch_sync (mk_task pageId totalCount folderName offsetIndex 0) good
                0%nat w) as (Hfs & _).
    destruct (map_batch (mk_task pageId totalCount folderName offsetIndex 0) 0 good w)
      as [w1 ok]. simpl in *. subst ok. simpl.
    assert (mk_task pageId totalCount folderName offsetIndex 0 (length good) bad = None)
      as -> by (unfold mk_task; by rewrite Hbad).
    by split_and!.
Qed.

Lemma malformed_item_rejects_page_witness :
  (0 < 8)%nat
  ∧ Forall (λ data, is_Some (item_path data)) [example_item "a.jpg"]
  ∧ item_path (JObj [("id", JStr "x")]) = None
  ∧ (length [example_item "a.jpg"] < 8)%nat
  ∧ (download_batches 8 1 24 "W" 0 ([example_item "a.jpg"] ++ JObj [("id", JStr "x")] :: [])
       [] empty_world).1.1 = Rejected TypeError.
Proof.
  assert (0 < 8)%nat as H0 by lia.
  assert (Forall (λ data, is_Some (item_path data)) [example_item "a.jpg"]) as H1.
  { constructor; [by eexists|constructor]. }
  assert (item_path (JObj [("id", JStr "x")]) = None) as H2 by reflexivity.
  assert (length [example_item "a.jpg"] < 8)%nat as H3 by (simpl; lia).
  split; [exact H0|]. split; [exact H1|]. split; [exact H2|]. split; [exact H3|].
  exact (proj1 (proj2 (malformed_item_rejects_page 8 1 24 "W" 0 [] empty_world H0)
                  [example_item "a.jpg"] (JObj [("id", JStr "x")]) [] H1 H2 H3)).
Defined.
(** ** The result of a download is final *)

Lemma handle_settled_final id ev d fs :
  dl_settled d = true →
  dl_img_response (handle id ev d fs).1.1 = dl_img_response d
  ∧ Forall (λ o, is_Settled o = false) (handle id ev d fs).2.
Proof.
  destruct d as [t rq ir rs st wo tm dn tot]. unfold dl_settled. simpl.
  destruct rq; simpl; [|by intros _; split].
  destruct ir as [v|]; [intros _|done].
  unfold handle, onError, resolve; simpl.
  destruct ev; simpl; repeat (first [destruct rs | destruct st | destruct tm]; simpl);
    try (destruct (Z.eqb_spec statusCode 200); simpl);
    (split; [done|by repeat constructor]).
Qed.

Lemma resolve_settled_id id v d : Forall (λ o, ∀ i, o = Settled i → i = id) (resolve id v d).2.
Proof.
  unfold resolve. destruct (dl_img_response d); simpl; [constructor|].
  destruct v; simpl; repeat constructor; by intros i [= ->].
Qed.

(** The only [Settled] a callback of download [id] traces is its own. *)
Lemma handle_settled_id id ev d fs :
  Forall (λ o, ∀ i, o = Settled i → i = id) (handle id ev d fs).2.
Proof.
  handle_cases d ev;
    repeat (first [apply Forall_nil_2 | apply resolve_settled_id
                  | apply Forall_cons_2; [done|]]).
Qed.

(** Once the promise of a task is settled, no callback changes what it
    resolved with, and the task is never settled a second time: whatever
    is delivered afterwards (a late 'finish' after a timeout, an 'error'
    after a 'timeout', callbacks of other downloads), the result stays and
    no further [Settled] of that task is traced. *)
Theorem result_is_final id d w evs :
  w_tasks w !! id = Some d → dl_settled d = true →
  let w' := deliver_all evs w in
  (∃ d', w_tasks w' !! id = Some d'
         ∧ dl_img_response d' = dl_img_response d ∧ dl_settled d' = true)
  ∧ Settled id ∉ new_trace w w'.
Proof.
  intros Hd Hs w'. unfold w', new_trace.
  assert (∀ evs w0 d0, w_tasks w0 !! id = Some d0 → dl_settled d0 = true →
            (length (w_trace w) ≤ length (w_trace w0))%nat →
            Settled id ∉ drop (length (w_trace w)) (w_trace w0) →
            (∃ d', w_tasks (deliver_all evs w0) !! id = Some d'
                   ∧ dl_img_response d' = dl_img_response d0 ∧ dl_settled d' = true)
            ∧ Settled id ∉ drop (length (w_trace w)) (w_trace (deliver_all evs w0))) as Hgen.
  { clear. induction evs as [|e evs IH]; intros w0 d0 Hd0 Hs0 Hlen Hno; simpl.
    { split; [by exists d0|done]. }
    assert (∃ d1, w_tasks (deliver e w0) !! id = Some d1
                  ∧ dl_img_response d1 = dl_img_response d0 ∧ dl_settled d1 = true
                  ∧ (length (w_trace w) ≤ length (w_trace (deliver e w0)))%nat
                  ∧ Settled id ∉ drop (length (w_trace w)) (w_trace (deliver e w0)))
      as (d1 & Hd1 & Hi1 & Hs1 & Hlen1 & Hno1).
    { destruct e as [id' ev| |]; simpl; [|by exists d0..].
      destruct (w_tasks w0 !! id') as [d'|] eqn:Hd'; [|rewrite dispatch_none by done; by exists d0].
      destruct (dispatch_same id' ev w0 d' Hd') as (Hl & Htr & _).
      destruct (decide (id' = id)) as [->|Hne].
      - rewrite Hd0 in Hd'. injection Hd' as <-.
        destruct (handle_settled_final id ev d0 (w_fs w0) Hs0) as [Hi Hout].
        eexists. split_and!; [done|done|by apply handle_settled| |].
        + rewrite Htr, length_app. lia.
        + rewrite Htr, drop_app_elem by done. intros [?|Hin]; [done|].
          rewrite Forall_forall in Hout. by apply Hout in Hin.
      - exists d0. split_and!; [by rewrite dispatch_other|done|done| |].
        + rewrite Htr, length_app. lia.
        + rewrite Htr, drop_app_elem by done. intros [?|Hin]; [done|].
          pose proof (handle_settled_id id' ev d' (w_fs w0)) as Hout.
          rewrite Forall_forall in Hout. by specialize (Hout _ Hin id eq_refl). }
    destruct (IH (deliver e w0) d1 Hd1 Hs1 Hlen1 Hno1) as [(d2 & ? & Hi2 & ?) ?].
    split; [|done]. exists d2. split_and!; [done|congruence|done]. }
  apply (Hgen evs w d Hd Hs); [done|]. rewrite drop_all. apply not_elem_of_nil.
Qed.

Lemma result_is_final_witness :
  w_tasks (deliver (DlEvent 0 TimerFire)
             (deliver (DlEvent 0 (Response 200 None))
                (saveImageToFile example_task empty_world))) !! 0%nat
  = Some (Dl example_task true (Some false) true true false false 0 JSNum.NaN)
  ∧ Settled 0
    ∉ new_trace (deliver (DlEvent 0 TimerFire)
                   (deliver (DlEvent 0 (Response 200 None))
                      (saveImageToFile example_task empty_world)))
        (deliver_all [DlEvent 0 WriterFinish]
           (deliver (DlEvent 0 TimerFire)
              (deliver (DlEvent 0 (Response 200 None))
                 (saveImageToFile example_task empty_world)))).
Proof.
  assert (w_tasks (deliver (DlEvent 0 TimerFire)
             (deliver (DlEvent 0 (Response 200 None))
                (saveImageToFile example_task empty_world))) !! 0%nat
          = Some (Dl example_task true (Some false) true true false false 0 JSNum.NaN))
    as H by (vm_compute; reflexivity).
  split; [exact H|].
  exact (proj2 (result_is_final 0 _ _ [DlEvent 0 WriterFinish] H eq_refl)).
Defined.

(** ** A download that succeeds *)

Lemma data_state id lens : ∀ w d,
  w_tasks w !! id = Some d → dl_requested d = true → dl_streaming d = true →
  ∃ n, w_tasks (deliver_all (map (λ n, DlEvent id (Data n)) lens) w) !! id
       = Some (set_downloaded n d)
     ∧ w_fs (deliver_all (map (λ n, DlEvent id (Data n)) lens) w) = w_fs w.
Proof.
  induction lens as [|n lens IH]; intros w d Hd Hreq Hst; simpl.
  { exists (dl_downloaded d). split; [|done]. by destruct d. }
  destruct (dispatch_same id (Data n) w d Hd) as (Hl & _ & Hfs).
  unfold handle in Hl, Hfs. rewrite Hreq, Hst in Hl, Hfs. simpl in Hl, Hfs.
  fold (deliver_all (map (λ n, DlEvent id (Data n)) lens) (dispatch id (Data n) w)).
  destruct (IH _ _ Hl) as (m & Hm & Hfs2); [done..|].
  exists m. split; [by rewrite Hm|by rewrite Hfs2].
Qed.

(** A 200 response, any chunks and then the writer's 'finish': the promise
    resolves to [true], the file is at its destination, the trace is the
    opening of the stream, one progress line per chunk, the final 100% line
    and the settlement, with no error or failure line; the timer has been
    cleared, so its callback can no longer remove the file. *)
Theorem successful_download t w h lens :
  file_path t ∉ w_fs w →
  let id := length (w_tasks w) in
  let w1 := saveImageToFile t w in
  let w' := deliver_all (DlEvent id (Response 200 h)
                         :: map (λ n, DlEvent id (Data n)) lens
                         ++ [DlEvent id WriterFinish]) w1 in
  (∃ d, w_tasks w' !! id = Some d ∧ dl_img_response d = Some true
        ∧ dl_timer d = false ∧ dl_writer_open d = false)
  ∧ file_path t ∈ w_fs w'
  ∧ new_trace w1 w'
    = CreateWriteStream id (file_path t) :: SetTimeout id
      :: map (λ k, StdoutWrite (split_pop (file_path t))
                     (progress (sum_Z (take (S k) lens)) (JSNum.parseInt h))
                     (current_image t) (total_images t) false)
             (seq 0 (length lens))
      ++ [ClearTimeout id;
          StdoutWrite (split_pop (file_path t)) (JSNum.of_Z 100)
                      (current_image t) (total_images t) true;
          Settled id]
  ∧ w_fs (deliver (DlEvent id TimerFire) w') = w_fs w'.
Proof.
  intros Hfresh id w1 w'.
  assert (w_tasks w1 !! id = Some (dl_requesting t)) as Hd1.
  { unfold w1, saveImageToFile. rewrite bool_decide_eq_false_2 by done. simpl.
    by rewrite lookup_app_r, Nat.sub_diag. }
  destruct (dispatch_same id (Response 200 h) w1 _ Hd1) as (Hl & Htr & Hfs).
  simpl in Hl, Htr, Hfs.
  set (w2 := dispatch id (Response 200 h) w1) in *.
  set (w3 := deliver_all (map (λ n, DlEvent id (Data n)) lens) w2).
  assert (w' = deliver (DlEvent id WriterFinish) w3) as Hw'.
  { unfold w', w3, deliver_all. simpl. by rewrite foldl_app. }
  destruct (data_state id lens w2 _ Hl) as (n & Hn & Hfs3); [done..|].
  pose proof (data_lines id lens w2 _ Hl eq_refl eq_refl) as Htr3.
  fold w3 in Hn, Hfs3, Htr3. simpl in Htr3.
  destruct (dispatch_same id WriterFinish w3 _ Hn) as (Hl4 & Htr4 & Hfs4).
  simpl in Hl4, Htr4, Hfs4. rewrite Hw'. simpl deliver.
  split_and!.
  - eexists. by split.
  - rewrite Hfs4, Hfs3, Hfs. apply elem_of_union. left. by apply elem_of_singleton.
  - assert (w_trace w3
            = w_trace w2
              ++ map (λ k, StdoutWrite (split_pop (file_path t))
                             (progress (sum_Z (take (S k) lens)) (JSNum.parseInt h))
                             (current_image t) (total_images t) false)
                     (seq 0 (length lens))) as Htr3'.
    { rewrite Htr3. f_equal. }
    unfold new_trace. rewrite Htr4, Htr3', Htr, <- !app_assoc.
    by rewrite drop_app_length.
  - destruct (dispatch_same id TimerFire (dispatch id WriterFinish w3) _ Hl4) as (_ & _ & ->).
    done.
Qed.

Lemma successful_download_witness :
  (file_path example_task ∉ w_fs empty_world)
  ∧ file_path example_task
    ∈ w_fs (deliver_all (DlEvent (length (w_tasks empty_world)) (Response 200 (Some "10"))
                         :: map (λ n, DlEvent (length (w_tasks empty_world)) (Data n)) [4; 6]
                         ++ [DlEvent (length (w_tasks empty_world)) WriterFinish])
                        (saveImageToFile example_task empty_world)).
Proof.
  assert (file_path example_task ∉ w_fs empty_world) as H1 by apply not_elem_of_empty.
  split; [exact H1|].
  exact (proj1 (proj2 (successful_download example_task empty_world (Some "10") [4; 6] H1))).
Defined.
(** ** What the callbacks do to the filesystem *)

Lemma handle_fs_other id ev d fs p :
  p ≠ file_path (dl_task d) → p ∈ (handle id ev d fs).1.2 ↔ p ∈ fs.
Proof.
  intros Hp. handle_cases d ev; try done;
    rewrite ?elem_of_union, ?elem_of_difference, ?elem_of_singleton; tauto.
Qed.

(** Callbacks create and remove nothing but destinations of tasks of the
    table: a path that is the destination of no started task is in the
    filesystem after any sequence of callbacks exactly when it was before. *)
Theorem callbacks_touch_only_destinations evs w p :
  (∀ t, t ∈ map dl_task (w_tasks w) → file_path t ≠ p) →
  p ∈ w_fs (deliver_all evs w) ↔ p ∈ w_fs w.
Proof.
  revert w. induction evs as [|e evs IH]; intros w Hp; simpl; [done|].
  rewrite IH; [|by rewrite deliver_tasks].
  destruct e as [id ev| |]; simpl; [|done..].
  destruct (w_tasks w !! id) as [d|] eqn:Hd; [|by rewrite dispatch_none].
  destruct (dispatch_same id ev w d Hd) as (_ & _ & ->).
  apply handle_fs_other. intros ->. eapply Hp; [|done].
  apply list_elem_of_fmap. exists d. split; [done|]. by eapply list_elem_of_lookup_2.
Qed.

Lemma callbacks_touch_only_destinations_witness :
  (∀ t, t ∈ map dl_task (w_tasks (saveImageToFile example_task (World {["W/z.jpg"]} [] []))) →
        file_path t ≠ "W/z.jpg")
  ∧ ("W/z.jpg"
     ∈ w_fs (deliver_all [DlEvent 0 (Response 200 None); DlEvent 0 TimerFire]
               (saveImageToFile example_task (World {["W/z.jpg"]} [] [])))
     ↔ "W/z.jpg" ∈ w_fs (saveImageToFile example_task (World {["W/z.jpg"]} [] []))).
Proof.
  assert (∀ t, t ∈ map dl_task (w_tasks (saveImageToFile example_task
                                           (World {["W/z.jpg"]} [] []))) →
               file_path t ≠ "W/z.jpg") as H.
  { intros t Ht. unfold saveImageToFile in Ht.
    rewrite bool_decide_eq_false_2 in Ht by compute_done.
    apply list_elem_of_singleton in Ht as ->. done. }
  split; [exact H|].
  exact (callbacks_touch_only_destinations
           [DlEvent 0 (Response 200 None); DlEvent 0 TimerFire] _ "W/z.jpg" H).
Defined.

(** The cleanup of a streaming download whose body timer fires: the file
    goes and the download fails. *)
Lemma cleanup_on_timer_and_writer_error_witness :
  dl_requested (open_stream JSNum.NaN (dl_requesting example_task)) = true
  ∧ dl_timer (open_stream JSNum.NaN (dl_requesting example_task)) = true
  ∧ (file_path example_task
     ∉ (handle 0 TimerFire (open_stream JSNum.NaN (dl_requesting example_task))
          {[file_path example_task]}).1.2)
  ∧ dl_img_response
      (handle 0 TimerFire (open_stream JSNum.NaN (dl_requesting example_task))
         {[file_path example_task]}).1.1
    = Some false.
Proof.
  assert (dl_requested (open_stream JSNum.NaN (dl_requesting example_task)) = true)
    as H1 by reflexivity.
  assert (dl_timer (open_stream JSNum.NaN (dl_requesting example_task)) = true)
    as H2 by reflexivity.
  split; [exact H1|]. split; [exact H2|].
  split.
  - exact (proj1 (cleanup_on_timer_and_writer_error 0 _ {[file_path example_task]}
                    TimerFire H1 (or_introl (conj eq_refl H2)))).
  - exact (proj1 (proj2 (proj2 (proj2
             (cleanup_on_timer_and_writer_error 0 _ {[file_path example_task]}
                TimerFire H1 (or_introl (conj eq_refl H2))))))).
Defined.

(** ** A page whose files are all there *)

Lemma map_batch_existing mkf batch : ∀ index w,
  (∀ k data, batch !! k = Some data →
     ∃ t, mkf (index + k)%nat data = Some t ∧ file_path t ∈ w_fs w) →
  let m := map_batch mkf index batch w in
  m.2 = true ∧ w_fs m.1 = w_fs w
  ∧ (∃ sk, w_tasks m.1 = w_tasks w ++ sk ∧ Forall (λ d, dl_settled d = true) sk)
  ∧ (∃ out, w_trace m.1 = w_trace w ++ out
          ∧ Forall (λ o, ∀ i u, o ≠ HttpsGet i u) out).
Proof.
  induction batch as [|data rest IH]; intros index w Hex; simpl.
  { split_and!; [done|done|exists []|exists []]; by rewrite app_nil_r. }
  destruct (Hex 0%nat data eq_refl) as (t & Ht & Hin). rewrite Nat.add_0_r in Ht.
  rewrite Ht.
  assert (saveImageToFile t w
          = World (w_fs w) (w_tasks w ++ [dl_skipped t])
              (w_trace w ++ [Started (length (w_tasks w));
                             ConsoleLogExists (split_pop (file_path t))
                               (current_image t) (total_images t);
                             Settled (length (w_tasks w))])) as Hsave.
  { unfold saveImageToFile. by rewrite bool_decide_eq_true_2. }
  destruct (IH (S index) (saveImageToFile t w)) as (Hok & Hfs & (sk & Hsk & Hset) & out & Hout & Hno).
  { intros k d Hk. replace (S index + k)%nat with (index + S k)%nat by lia.
    rewrite Hsave. simpl. by apply Hex. }
  rewrite Hsave in *. simpl in *. split_and!; [done|done| |].
  - exists (dl_skipped t :: sk). rewrite Hsk, <- app_assoc. split; [done|].
    by constructor.
  - eexists. rewrite Hout, <- app_assoc. split; [done|].
    apply Forall_app. split; [by repeat constructor|done].
Qed.

Lemma run_batches_existing mk bs : ∀ evs w,
  (∀ i batch k data, (i, batch) ∈ bs → batch !! k = Some data →
     ∃ t, mk i k data = Some t ∧ file_path t ∈ w_fs w) →
  let r := run_batches mk bs evs w in
  r.1.1 = Completed ∧ r.2 = evs ∧ w_fs r.1.2 = w_fs w
  ∧ (∃ out, w_trace r.1.2 = w_trace w ++ out
          ∧ Forall (λ o, ∀ i u, o ≠ HttpsGet i u) out).
Proof.
  induction bs as [|[i batch] bs IH]; intros evs w Hex; simpl.
  { split_and!; try done. exists []. by rewrite app_nil_r. }
  destruct (map_batch_existing (mk i) batch 0%nat w) as
    (Hok & Hfs & (sk & Hsk & Hset) & out & Hout & Hno).
  { intros k data Hk. eapply Hex; [apply list_elem_of_here|done]. }
  destruct (map_batch (mk i) 0 batch w) as [w1 ok]. simpl in *. subst ok.
  assert (all_settled (length (w_tasks w)) w1 = true) as Hall.
  { unfold all_settled. rewrite Hsk, drop_app_length. apply forallb_forall.
    intros d Hd%list_elem_of_In. rewrite Forall_forall in Hset. by apply Hset. }
  assert (await_all (length (w_tasks w)) evs w1 = (w1, evs, true)) as ->.
  { destruct evs; simpl; by rewrite Hall. }
  destruct (IH evs w1) as (? & ? & Hfs2 & out2 & Hout2 & Hno2).
  { intros i' b' k data Hin Hk. rewrite Hfs. eapply Hex; [|done].
    by apply list_elem_of_further. }
  split_and!; [done|done|congruence|].
  exists (out ++ out2). rewrite Hout2, Hout, <- app_assoc. split; [done|].
  by apply Forall_app.
Qed.

(** When the destination of every item of a page exists, the scheduler
    completes at once, for every positive batch size: it makes no request,
    delivers no callback and leaves the filesystem as it is. *)
Theorem existing_page_completes L pageId totalCount folderName offsetIndex pageData evs w :
  (0 < L)%nat →
  (∀ data, data ∈ pageData →
     ∃ p, item_path data = Some p ∧ folderName +:+ "/" +:+ split_pop p ∈ w_fs w) →
  let r := download_batches L pageId totalCount folderName offsetIndex pageData evs w in
  r.1.1 = Completed ∧ r.2 = evs ∧ w_fs r.1.2 = w_fs w
  ∧ Forall (λ o, ∀ i u, o ≠ HttpsGet i u) (new_trace w r.1.2).
Proof.
  intros HL Hex r. unfold r. rewrite download_batches_pos by done.
  destruct (run_batches_existing (mk_task pageId totalCount folderName offsetIndex)
              (batches L pageData) evs w) as (? & ? & ? & out & Hout & Hno).
  { intros i batch k data Hin Hk. unfold batches in Hin.
    apply list_elem_of_fmap in Hin as (i' & [= -> ->] & _).
    apply slice_lookup in Hk as [Hk _].
    destruct (Hex data) as (p & Hp & Hfs); [by eapply list_elem_of_lookup_2|].
    unfold mk_task. rewrite Hp. by eexists. }
  split_and!; [done..|]. unfold new_trace. by rewrite Hout, drop_app_length.
Qed.

Lemma existing_page_completes_witness :
  (0 < 8)%nat
  ∧ (∀ data, data ∈ [example_item "a.jpg"] →
       ∃ p, item_path data = Some p
            ∧ "W" +:+ "/" +:+ split_pop p ∈ w_fs (World {["W/a.jpg"]} [] []))
  ∧ (download_batches 8 1 24 "W" 0 [example_item "a.jpg"] [DlEvent 0 TimerFire]
       (World {["W/a.jpg"]} [] [])).2 = [DlEvent 0 TimerFire].
Proof.
  assert (0 < 8)%nat as H0 by lia.
  assert (∀ data, data ∈ [example_item "a.jpg"] →
            ∃ p, item_path data = Some p
                 ∧ "W" +:+ "/" +:+ split_pop p ∈ w_fs (World {["W/a.jpg"]} [] [])) as H.
  { intros data ->%list_elem_of_singleton. eexists. split; [reflexivity|]. compute_done. }
  split; [exact H0|]. split; [exact H|].
  exact (proj1 (proj2 (existing_page_completes 8 1 24 "W" 0 [example_item "a.jpg"]
                         [DlEvent 0 TimerFire] (World {["W/a.jpg"]} [] []) H0 H))).
Defined.

(** ** Files that exist before a run *)







(** ** The pages a run requests *)








(** A page that completes has consumed the callback that ended its
    response, so the page loop uses up at least one callback per page: the
    cut of the loop in [main] loses nothing. *)
Lemma await_all_events n evs : ∀ w,
  (length (await_all n evs w).1.2 ≤ length evs)%nat.
Proof.
  induction evs as [|e evs IH]; intros w; simpl.
  - by destruct (all_settled n w).
  - destruct (all_settled n w); simpl; [lia|]. specialize (IH (deliver e w)). lia.
Qed.

Lemma run_batches_events mk bs : ∀ evs w,
  (length (run_batches mk bs evs w).2 ≤ length evs)%nat.
Proof.
  induction bs as [|[i batch] bs IH]; intros evs w; simpl; [done|].
  destruct (map_batch (mk i) 0 batch w) as [w1 []]; simpl; [|done].
  pose proof (await_all_events (length (w_tasks w)) evs w1) as H1.
  destruct (await_all (length (w_tasks w)) evs w1) as [[w2 evs2] []]; simpl in *; [|done].
  specialize (IH evs2 w2). lia.
Qed.

Lemma await_response_events evs : ∀ w,
  is_Some (await_response evs w).1.1 →
  (length (await_response evs w).2 < length evs)%nat.
Proof.
  induction evs as [|e evs IH]; intros w; simpl; [by intros [? ?]|].
  destruct e; simpl; [|lia..]. intros H. specialize (IH _ H). lia.
Qed.

Lemma downloadPage_events JSON_parse zero_lt queryObject pageId totalCount folderName
    offsetIndex evs w :
  (downloadPage JSON_parse zero_lt queryObject pageId totalCount folderName
     offsetIndex evs w).1.1 = Completed →
  (length (downloadPage JSON_parse zero_lt queryObject pageId totalCount folderName
             offsetIndex evs w).2 < length evs)%nat.
Proof.
  unfold downloadPage. set (w0 := emit _ w).
  pose proof (await_response_events evs w0) as Hlt.
  destruct (await_response evs w0) as [[[[data|message]|] w1] evs1]; simpl in *;
    [|done..].
  specialize (Hlt ltac:(by eexists)).
  destruct (JSON_parse data) as [response|]; simpl; [|done].
  destruct (page_items zero_lt response) as [pageData|]; simpl; [|done].
  intros _.
  pose proof (run_batches_events (mk_task pageId totalCount folderName offsetIndex)
                (batches CONCURRENCY_LIMIT pageData) evs1 w1). lia.
Qed.


(** More turns than callbacks change nothing. *)
Lemma page_loop_fuel JSON_parse zero_lt queryObject bound totalCount folderName
    offsetIndex fuel1 : ∀ fuel2 page_index evs w,
  (length evs < fuel1)%nat → (length evs < fuel2)%nat →
  page_loop JSON_parse zero_lt queryObject (page_indices fuel1 page_index bound)
    totalCount folderName offsetIndex evs w
  = page_loop JSON_parse zero_lt queryObject (page_indices fuel2 page_index bound)
      totalCount folderName offsetIndex evs w.
Proof.
  induction fuel1 as [|fuel1 IH]; intros fuel2 p evs w H1 H2; [lia|].
  destruct fuel2 as [|fuel2]; [lia|]. cbn [page_indices].
  destruct (JSNum.lt (JSNum.of_Z p) bound); [|done]. cbn [page_loop].
  pose proof (downloadPage_events JSON_parse zero_lt queryObject p totalCount folderName
                offsetIndex evs w) as Hlt.
  destruct (downloadPage _ _ _ _ _ _ _ _ _) as [[[] w1] evs1]; simpl in *; try done.
  specialize (Hlt eq_refl). apply IH; lia.
Qed.




(** ** The number of downloads in flight *)

Lemma count_app kind l1 l2 : count kind (l1 ++ l2) = (count kind l1 + count kind l2)%nat.
Proof. unfold count. by rewrite filter_app, length_app. Qed.

Lemma count_none kind l : Forall (λ o, kind o = false) l → count kind l = 0%nat.
Proof.
  unfold count. induction 1 as [|o l Ho _ IH]; [done|].
  rewrite filter_cons_False; [done|]. by rewrite Ho.
Qed.

Lemma count_elem kind l o : o ∈ l → kind o = true → (1 ≤ count kind l)%nat.
Proof.
  intros (l1 & l2 & ->)%list_elem_of_split Hk. rewrite count_app. unfold count at 2.
  rewrite filter_cons_True by done. simpl. lia.
Qed.

Lemma bound_app_nostart L tr out :
  in_flight_bound L tr → (count is_Started tr ≤ count is_Settled tr + L)%nat →
  Forall (λ o, is_Started o = false) out → in_flight_bound L (tr ++ out).
Proof.
  intros Hb Hc Hout k. rewrite take_app.
  destruct (decide (k ≤ length tr)%nat) as [Hk|Hk].
  - replace (k - length tr)%nat with 0%nat by lia. rewrite take_0, app_nil_r. apply Hb.
  - rewrite take_ge by lia. rewrite !count_app.
    rewrite (count_none is_Started (take _ out)) by by apply Forall_take. lia.
Qed.

Lemma bound_app_start L tr id rest :
  in_flight_bound L tr → (count is_Started tr + 1 ≤ count is_Settled tr + L)%nat →
  Forall (λ o, is_Started o = false) rest →
  in_flight_bound L (tr ++ Started id :: rest).
Proof.
  intros Hb Hc Hrest.
  change (Started id :: rest) with ([Started id] ++ rest). rewrite app_assoc.
  apply bound_app_nostart; [| |done].
  - intros k. rewrite take_app.
    destruct (decide (k ≤ length tr)%nat) as [Hk|Hk].
    + replace (k - length tr)%nat with 0%nat by lia. rewrite take_0, app_nil_r. apply Hb.
    + rewrite take_ge by lia. rewrite (take_ge [Started id]) by (simpl; lia).
      rewrite !count_app. unfold count at 2 4. simpl. lia.
  - rewrite !count_app. unfold count at 2 4. simpl. lia.
Qed.

Lemma unsettled_insert l i d d' :
  l !! i = Some d →
  (length (filter (λ d, dl_settled d = false) (<[i:=d']> l))
   + (if dl_settled d then 0 else 1)
   = length (filter (λ d, dl_settled d = false) l)
     + (if dl_settled d' then 0 else 1))%nat.
Proof.
  intros Hi. rewrite <- (take_drop_middle l i d Hi) at 2.
  rewrite insert_take_drop by by eapply lookup_lt_Some.
  rewrite !filter_app, !length_app, !filter_cons.
  destruct (dl_settled d) eqn:Hd, (dl_settled d') eqn:Hd';
    repeat (destruct (decide _); try done); simpl; lia.
Qed.

Lemma flight_weaken L base n cap cap' w :
  (cap ≤ cap')%nat → flight L base n cap w → flight L base n cap' w.
Proof. intros ? (? & ? & ? & ? & ?). split_and!; try done. lia. Qed.

Lemma flight_deliver L base n cap e w :
  (cap ≤ L)%nat → flight L base n cap w → flight L base n cap (deliver e w).
Proof.
  intros Hcap (Hbase & Hb & Hc & Hu & Hn).
  destruct e as [id ev| |]; simpl; [|by split_and!..].
  destruct (w_tasks w !! id) as [d|] eqn:Hd; [|rewrite dispatch_none by done; by split_and!].
  destruct (dispatch_same id ev w d Hd) as (Hl & Htr & _).
  pose proof (handle_no_started id ev d (w_fs w)) as Hns.
  assert (unsettled n (dispatch id ev w) ≤ unsettled n w
          ∧ unsettled n w
            ≤ unsettled n (dispatch id ev w)
              + count is_Settled (handle id ev d (w_fs w)).2)%nat as [Hu1 Hu2].
  { unfold unsettled, dispatch. rewrite Hd.
    destruct (handle id ev d (w_fs w)) as [[d' fs'] out] eqn:Hh. simpl.
    destruct (decide (id < n)%nat) as [Hlt|Hge].
    - rewrite drop_insert_lt by lia. lia.
    - rewrite drop_insert_ge by lia.
      pose proof (unsettled_insert (drop n (w_tasks w)) (id - n) d d') as Hins.
      rewrite lookup_drop in Hins. replace (n + (id - n))%nat with id in Hins by lia.
      specialize (Hins Hd).
      pose proof (handle_settled id ev d (w_fs w)) as Hmono.
      pose proof (handle_newly_settled id ev d (w_fs w)) as Hnew.
      rewrite Hh in Hmono, Hnew. simpl in *.
      destruct (dl_settled d) eqn:Hsd.
      + rewrite (Hmono eq_refl) in Hins. lia.
      + destruct (dl_settled d') eqn:Hsd'; [|lia].
        pose proof (count_elem is_Settled out (Settled id) (Hnew eq_refl eq_refl) eq_refl).
        lia. }
  unfold flight. rewrite Htr. split_and!.
  - rewrite length_app. lia.
  - rewrite drop_app_le by done. apply bound_app_nostart; [done|lia|done].
  - rewrite drop_app_le by done. rewrite !count_app.
    rewrite (count_none is_Started _ Hns). lia.
  - lia.
  - by rewrite dispatch_length.
Qed.

Lemma flight_save L base n cap t w :
  (cap < L)%nat → flight L base n cap w → flight L base n (S cap) (saveImageToFile t w).
Proof.
  intros Hcap (Hbase & Hb & Hc & Hu & Hn).
  unfold saveImageToFile, flight, unsettled.
  case_bool_decide; cbn [w_trace w_tasks w_fs];
    rewrite drop_app_le, (drop_app_le (w_tasks w)) by done;
    rewrite filter_app, !length_app, !count_app; unfold unsettled in *.
  - split_and!; [lia| | | |lia].
    + apply bound_app_start; [done|lia|by repeat constructor].
    + unfold count at 2 4. simpl. lia.
    + simpl. lia.
  - split_and!; [lia| | | |lia].
    + apply bound_app_start; [done|lia|by repeat constructor].
    + unfold count at 2 4. simpl. lia.
    + simpl. lia.
Qed.

Lemma flight_map_batch L base n mkf batch : ∀ index w,
  (index + length batch ≤ L)%nat → flight L base n index w →
  flight L base n L (map_batch mkf index batch w).1.
Proof.
  induction batch as [|data rest IH]; intros index w Hsz Hf; simpl in *.
  { eapply flight_weaken; [|done]. lia. }
  destruct (mkf index data) as [t|]; simpl.
  - apply IH; [lia|]. apply flight_save; [lia|done].
  - eapply flight_weaken; [|done]. lia.
Qed.

Lemma flight_await_all L base n evs : ∀ w,
  flight L base n L w → flight L base n L (await_all n evs w).1.1.
Proof.
  induction evs as [|e evs IH]; intros w Hf; simpl.
  - by destruct (all_settled n w).
  - destruct (all_settled n w); [done|]. by apply IH, flight_deliver.
Qed.

Lemma all_settled_unsettled n w : all_settled n w = true → unsettled n w = 0%nat.
Proof.
  unfold all_settled, unsettled. rewrite forallb_forall. intros Hall.
  induction (drop n (w_tasks w)) as [|d l IH]; [done|].
  rewrite filter_cons_False.
  - apply IH. intros x Hx. apply Hall. by right.
  - rewrite (Hall d); [done|by left].
Qed.

Lemma flight_next L base n w :
  flight L base n L w → all_settled n w = true →
  flight L base (length (w_tasks w)) 0 w.
Proof.
  intros (Hbase & Hb & Hc & Hu & Hn) Hall.
  rewrite (all_settled_unsettled n w Hall) in Hc.
  unfold flight, unsettled. rewrite drop_all. simpl. split_and!; try done; lia.
Qed.

Lemma flight_run_batches L base mk bs : ∀ evs w,
  Forall (λ ib, (length ib.2 ≤ L)%nat) bs →
  flight L base (length (w_tasks w)) 0 w →
  let r := run_batches mk bs evs w in
  (∃ n, flight L base n L r.1.2)
  ∧ (r.1.1 = Completed → flight L base (length (w_tasks r.1.2)) 0 r.1.2).
Proof.
  induction bs as [|[i batch] bs IH]; intros evs w Hbs Hf; simpl.
  { split; [|done]. eexists. eapply flight_weaken; [|done]. lia. }
  apply Forall_cons in Hbs as [Hlen Hbs]. simpl in Hlen.
  pose proof (flight_map_batch L base (length (w_tasks w)) (mk i) batch 0%nat w Hlen Hf) as H1.
  destruct (map_batch (mk i) 0 batch w) as [w1 []]; simpl in *; [|by split; [eexists|]].
  pose proof (flight_await_all L base (length (w_tasks w)) evs w1 H1) as H2.
  pose proof (await_all_settled (length (w_tasks w)) evs w1) as Hall.
  destruct (await_all (length (w_tasks w)) evs w1) as [[w2 evs2] []]; simpl in *;
    [|by split; [eexists|]].
  apply IH; [done|]. by eapply flight_next; [|apply Hall].
Qed.

Lemma batches_length {A} L (l : list A) :
  Forall (λ ib, (length ib.2 ≤ L)%nat) (batches L l).
Proof.
  unfold batches. apply Forall_fmap, Forall_forall. intros i _. simpl.
  rewrite slice_length. lia.
Qed.

Lemma flight_emit L base n cap out w :
  (cap ≤ L)%nat → Forall (λ o, is_Started o = false) out →
  flight L base n cap w → flight L base n cap (emit out w).
Proof.
  intros Hcap Hout (Hbase & Hb & Hc & Hu & Hn). unfold flight, emit, unsettled in *. simpl.
  rewrite drop_app_le by done. split_and!; try done.
  - rewrite length_app. lia.
  - apply bound_app_nostart; [done|lia|done].
  - rewrite !count_app, (count_none is_Started out) by done. lia.
Qed.

Lemma flight_await_response L base evs : ∀ w,
  flight L base (length (w_tasks w)) 0 w →
  flight L base (length (w_tasks (await_response evs w).1.2)) 0
         (await_response evs w).1.2.
Proof.
  induction evs as [|e evs IH]; intros w Hf; simpl; [done|].
  destruct e as [id ev| |]; simpl; [|done..]. apply IH.
  rewrite dispatch_length. apply (flight_deliver L base _ 0 (DlEvent id ev)); [lia|done].
Qed.

Lemma flight_downloadPage base JSON_parse zero_lt queryObject pageId totalCount
    folderName offsetIndex evs w :
  flight CONCURRENCY_LIMIT base (length (w_tasks w)) 0 w →
  let r := downloadPage JSON_parse zero_lt queryObject pageId totalCount folderName
             offsetIndex evs w in
  (∃ n, flight CONCURRENCY_LIMIT base n CONCURRENCY_LIMIT r.1.2)
  ∧ (r.1.1 = Completed → flight CONCURRENCY_LIMIT base (length (w_tasks r.1.2)) 0 r.1.2).
Proof.
  intros Hf. unfold downloadPage. set (w0 := emit _ w).
  assert (flight CONCURRENCY_LIMIT base (length (w_tasks w0)) 0 w0) as H0.
  { apply flight_emit; [lia|by repeat constructor|done]. }
  pose proof (flight_await_response CONCURRENCY_LIMIT base evs w0 H0) as H1.
  assert (∀ w', flight CONCURRENCY_LIMIT base (length (w_tasks w')) 0 w' →
                ∃ n, flight CONCURRENCY_LIMIT base n CONCURRENCY_LIMIT w') as Hw.
  { intros w' Hw'. eexists. eapply flight_weaken; [|done]. lia. }
  destruct (await_response evs w0) as [[[[data|message]|] w1] evs1]; simpl in *;
    try (split; [by apply Hw|done]).
  destruct (JSON_parse data) as [response|]; simpl; [|split; [by apply Hw|done]].
  destruct (page_items zero_lt response) as [pageData|]; simpl;
    [|split; [by apply Hw|done]].
  apply flight_run_batches; [apply batches_length|done].
Qed.

Lemma flight_page_loop base JSON_parse zero_lt queryObject pages totalCount folderName
    offsetIndex : ∀ evs w,
  flight CONCURRENCY_LIMIT base (length (w_tasks w)) 0 w →
  ∃ n, flight CONCURRENCY_LIMIT base n CONCURRENCY_LIMIT
         (page_loop JSON_parse zero_lt queryObject pages totalCount folderName
            offsetIndex evs w).1.2.
Proof.
  induction pages as [|p pages IH]; intros evs w Hf; simpl.
  { eexists. eapply flight_weaken; [|done]. lia. }
  destruct (flight_downloadPage base JSON_parse zero_lt queryObject p totalCount
              folderName offsetIndex evs w Hf) as [H1 H2].
  destruct (downloadPage _ _ _ _ _ _ _ _ _) as [[[] w1] evs1]; simpl in *; try done.
  by apply IH, H2.
Qed.

Lemma flight_start L w : flight L (length (w_trace w)) (length (w_tasks w)) 0 w.
Proof.
  unfold flight, unsettled. rewrite !drop_all. split_and!; try done; try (simpl; lia).
  intros k. rewrite take_nil. unfold count. simpl. lia.
Qed.

(** At every moment of a page, and of a whole run of [main], the tasks
    started so far exceed the tasks settled so far by at most the
    concurrency limit: no more than [L] downloads (8 in [main]) are ever in
    flight, whatever the callbacks and their order. *)
Theorem in_flight_at_most_limit :
  (∀ L pageId totalCount folderName offsetIndex pageData evs w,
     in_flight_bound L
       (new_trace w (download_batches L pageId totalCount folderName offsetIndex
                       pageData evs w).1.2))
  ∧ (∀ JSON_parse zero_lt queryObject FOLDER_NAME start_page pages_to_download evs w,
       in_flight_bound CONCURRENCY_LIMIT
         (new_trace w (main JSON_parse zero_lt queryObject FOLDER_NAME start_page
                         pages_to_download evs w).1.2)).
Proof.
  assert (∀ L, in_flight_bound L []) as Hnil.
  { intros L k. rewrite take_nil. unfold count. simpl. lia. }
  split.
  - intros. unfold new_trace.
    assert (in_flight_bound L
              (drop (length (w_trace w))
                 (w_trace (run_batches (mk_task pageId totalCount folderName offsetIndex)
                             (batches L pageData) evs w).1.2))) as Hrun.
    { destruct (flight_run_batches L (length (w_trace w))
                  (mk_task pageId totalCount folderName offsetIndex)
                  (batches L pageData) evs w (batches_length L pageData) (flight_start L w))
        as [[n (_ & Hb & _)] _].
      done. }
    unfold download_batches.
    destruct L as [|L]; [destruct pageData as [|data pageData]|]; try done.
    simpl. by rewrite drop_all.
  - intros. unfold new_trace, main.
    destruct (bool_decide (FOLDER_NAME ∈ w_fs w) || mkdir_ok FOLDER_NAME (w_fs w));
      [|simpl; by rewrite drop_all].
    set (w0 := if bool_decide (FOLDER_NAME ∈ w_fs w) then w else _).
    assert (flight CONCURRENCY_LIMIT (length (w_trace w)) (length (w_tasks w0)) 0 w0) as H0.
    { unfold w0. case_bool_decide; [apply flight_start|].
      assert (flight CONCURRENCY_LIMIT (length (w_trace w)) (length (w_tasks w)) 0
                (emit [Mkdir FOLDER_NAME] w)) as Hm.
      { apply flight_emit; [lia|by repeat constructor|apply flight_start]. }
      exact Hm. }
    match goal with
    | |- context [page_loop _ _ _ ?ps ?tc _ ?off _ _] =>
        destruct (flight_page_loop (length (w_trace w)) JSON_parse zero_lt queryObject
                    ps tc FOLDER_NAME off evs w0 H0) as [n (_ & Hb & _)]
    end.
    done.
Qed.

(** ** One start per item, in page order *)

Lemma filter_none_started out :
  Forall (λ o, is_Started o = false) out → filter (λ o, is_Started o = true) out = [].
Proof.
  induction 1 as [|o out Ho _ IH]; [done|].
  rewrite filter_cons_False; [done|]. by rewrite Ho.
Qed.

(** Whatever happens during a page, the tasks it starts are numbered
    consecutively from the length of the task table and each is started
    exactly once, in that order; when the page completes there is one per
    item of the page, and the [j]-th is the task of item [j]. *)
Theorem tasks_started_once_in_order L pageId totalCount folderName offsetIndex
    pageData evs w :
  let r := download_batches L pageId totalCount folderName offsetIndex pageData evs w in
  let n0 := length (w_tasks w) in
  (n0 ≤ length (w_tasks r.1.2))%nat
  ∧ filter (λ o, is_Started o = true) (new_trace w r.1.2)
    = map Started (seq n0 (length (w_tasks r.1.2) - n0))
  ∧ ((0 < L)%nat → r.1.1 = Completed →
     length (w_tasks r.1.2) = (n0 + length pageData)%nat
     ∧ ∀ j data, pageData !! j = Some data →
         ∃ d, w_tasks r.1.2 !! (n0 + j)%nat = Some d
              ∧ item_path data = Some (image_url (dl_task d))).
Proof.
  intros r n0.
  assert ((length (w_trace w) ≤ length (w_trace r.1.2))%nat
          ∧ (n0 ≤ length (w_tasks r.1.2))%nat
          ∧ filter (λ o, is_Started o = true) (drop (length (w_trace w)) (w_trace r.1.2))
            = map Started (seq n0 (length (w_tasks r.1.2) - n0))) as (_ & Hn & Hf).
  { unfold r.
    apply (download_batches_preserves
             (λ w', (length (w_trace w) ≤ length (w_trace w'))%nat
                    ∧ (n0 ≤ length (w_tasks w'))%nat
                    ∧ filter (λ o, is_Started o = true)
                        (drop (length (w_trace w)) (w_trace w'))
                      = map Started (seq n0 (length (w_tasks w') - n0)))).
    - intros t w1 (Hb & Hn & Hf). rewrite saveImageToFile_length.
      replace (S (length (w_tasks w1)) - n0)%nat with (S (length (w_tasks w1) - n0)) by lia.
      rewrite seq_S, map_app. simpl.
      replace (n0 + (length (w_tasks w1) - n0))%nat with (length (w_tasks w1)) by lia.
      unfold saveImageToFile. case_bool_decide; cbn [w_trace];
        (split_and!; [rewrite length_app; lia|lia|]);
        rewrite drop_app_le, filter_app, Hf by done; done.
    - intros e w1 (Hb & Hn & Hf).
      destruct (deliver_trace e w1) as (out & -> & Hout). rewrite deliver_length.
      split_and!; [rewrite length_app; lia|done|].
      by rewrite drop_app_le, filter_app, Hf, filter_none_started, app_nil_r.
    - split_and!; [done|done|]. by rewrite drop_all, Nat.sub_diag. }
  split_and!; [done|done|].
  intros HL Hc.
  destruct (download_batches_spec L pageId totalCount folderName offsetIndex
              pageData evs w HL) as (Hit & _ & Hcomp & _).
  destruct (Hcomp Hc) as [Hlen _]. split; [done|].
  intros j data Hj.
  destruct (lookup_lt_is_Some_2 (w_tasks r.1.2) (n0 + j)) as [d Hd].
  { unfold r. rewrite Hlen. apply lookup_lt_Some in Hj. unfold n0. lia. }
  exists d. split; [done|].
  destruct (Hit j (dl_task d)) as (data' & Hj' & Hmk).
  { unfold item_tasks in Hit. change (map dl_task ?l) with (dl_task <$> l).
    rewrite list_lookup_fmap. unfold r, n0 in Hd. by rewrite Hd. }
  rewrite Hj in Hj'. injection Hj' as <-.
  unfold mk_task in Hmk. destruct (item_path data); [|done]. by injection Hmk as <-.
Qed.

Lemma tasks_started_once_in_order_witness :
  (0 < 2)%nat
  ∧ (download_batches 2 1 24 "W" 0 example_page
       [DlEvent 0 (ReqError "x"); DlEvent 1 ReqTimeout; DlEvent 2 (Response 404 None)]
       empty_world).1.1 = Completed
  ∧ length (w_tasks (download_batches 2 1 24 "W" 0 example_page
       [DlEvent 0 (ReqError "x"); DlEvent 1 ReqTimeout; DlEvent 2 (Response 404 None)]
       empty_world).1.2) = (length (w_tasks empty_world) + length example_page)%nat.
Proof.
  assert (0 < 2)%nat as H0 by lia.
  assert ((download_batches 2 1 24 "W" 0 example_page
             [DlEvent 0 (ReqError "x"); DlEvent 1 ReqTimeout; DlEvent 2 (Response 404 None)]
             empty_world).1.1 = Completed) as H1 by (vm_compute; reflexivity).
  split; [exact H0|]. split; [exact H1|].
  exact (proj1 (proj2 (proj2 (tasks_started_once_in_order 2 1 24 "W" 0 example_page
           [DlEvent 0 (ReqError "x"); DlEvent 1 ReqTimeout; DlEvent 2 (Response 404 None)]
           empty_world)) H0 H1)).
Defined.

(** ** The percentage is capped *)

(** The percentage of a progress line is never above 100: it is NaN (when
    the length is NaN, or on 0 bytes of 0) or a Number that compares below
    or equal to 100, whatever the byte count and the announced length. *)
Theorem progress_at_most_100 downloaded total :
  progress downloaded total = JSNum.NaN
  ∨ SFcompare (progress downloaded total) (JSNum.of_Z 100) = Some Lt
  ∨ progress downloaded total = JSNum.of_Z 100.
Proof.
  unfold progress, JSNum.Math_min.
  set (x := JSNum.Math_round _).
  destruct (SFcompare x (JSNum.of_Z 100)) as [[| |]|] eqn:Hc.
  - destruct x as [[|]| | |]; by (right; right).
  - by right; left.
  - by right; right.
  - by left.
Qed.

(** ** The envelope of a page *)

(** A body that parses to [null] makes [downloadPage] reject with a
    TypeError (reading [data] of null) without starting a download, and so
    does a [data] member that is a non-empty string; an envelope that is a
    number, a string, a boolean or an array has no [data] and gives an empty
    page. *)
Theorem envelope_shapes JSON_parse zero_lt queryObject pageId totalCount folderName
    offsetIndex chunks evs w response :
  JSON_parse (String.concat EmptyString chunks) = Some response →
  let r := downloadPage JSON_parse zero_lt queryObject pageId totalCount folderName
             offsetIndex (PageEnd chunks :: evs) w in
  (response = JNull ∨ (∃ fields s, response = JObj fields
                        ∧ get_field "data" fields = Some (JStr s) ∧ s ≠ EmptyString) →
   r.1.1 = Rejected TypeError ∧ r.2 = evs ∧ length (w_tasks r.1.2) = length (w_tasks w))
  ∧ ((∀ fields, response ≠ JObj fields) → response ≠ JNull →
     r.1.1 = Completed ∧ r.2 = evs ∧ length (w_tasks r.1.2) = length (w_tasks w)).
Proof.
  intros Hparse r. unfold r, downloadPage. simpl. rewrite Hparse. split.
  - intros [->|(fields & s & -> & Hd & Hs)]; simpl; [done|].
    rewrite Hd. simpl. destruct (String.eqb_spec s EmptyString); [done|]. done.
  - intros Hobj Hnull. destruct response; try done. by destruct (Hobj fields).
Qed.

Lemma envelope_shapes_witness :
  (λ body : string, if String.eqb body "null" then Some JNull else None)
    (String.concat EmptyString ["null"]) = Some JNull
  ∧ (downloadPage (λ body, if String.eqb body "null" then Some JNull else None)
       (λ _, false) [("apikey", "k")] 1 24 "W" 0 (PageEnd ["null"] :: []) empty_world).1.1
    = Rejected TypeError.
Proof.
  assert ((λ body : string, if String.eqb body "null" then Some JNull else None)
            (String.concat EmptyString ["null"]) = Some JNull) as H by reflexivity.
  split; [exact H|].
  exact (proj1 (proj1 (envelope_shapes
           (λ body, if String.eqb body "null" then Some JNull else None)
           (λ _, false) [("apikey", "k")] 1 24 "W" 0 ["null"] [] empty_world JNull H)
           (or_introl eq_refl))).
Defined.
